(** * etcd-box: the namespace tree and the connection session

    A shallow embedding of [main.go]: the [Node] tree that [addNode] grows
    from the flat key listing of an etcd store, and the three session
    operations [connect], [search] and [disconnect] that rebuild or clear
    the subtree of a connection root. *)

From stdpp Require Import base option list strings gmap fin_maps.
From Stdlib Require Import Ascii.

Set Warnings "-clear-no-such-hyp".

Local Open Scope string_scope.
Local Open Scope list_scope.

(** ** Strings: [strings.TrimPrefix] and [strings.Split] *)

(** [stripPrefix pre s] is [Some rest] when [s = pre ++ rest]. *)
Fixpoint stripPrefix (pre s : string) : option string :=
  match pre, s with
  | EmptyString, _ => Some s
  | String a pre', String b s' =>
      if Ascii.eqb a b then stripPrefix pre' s' else None
  | String _ _, EmptyString => None
  end.

(** [strings.TrimPrefix(s, prefix)]: [s] without the leading [prefix], or
    [s] itself when it does not start with [prefix]. *)
Definition TrimPrefix (s pre : string) : string :=
  match stripPrefix pre s with
  | Some rest => rest
  | None => s
  end.

(** [strings.Split(s, sep)] for a one-byte separator: every separator ends
    a segment, empty segments are kept, and the result is never empty
    ([Split("", "/")] is the one-element slice holding [""]). *)
Fixpoint Split (s : string) (sep : ascii) : list string :=
  match s with
  | EmptyString => [EmptyString]
  | String c rest =>
      if Ascii.eqb c sep then EmptyString :: Split rest sep
      else match Split rest sep with
           | seg :: segs => String c seg :: segs
           | [] => [String c EmptyString]
           end
  end.

Definition slash : ascii := "/"%char.

(** The segment path of a store key, as both [connect] and [search] compute
    it: [strings.Split(strings.TrimPrefix(string(v.Key), "/"), "/")]. *)
Definition segments (k : string) : list string :=
  Split (TrimPrefix k "/") slash.

(** ** The node tree *)

(** [type Node struct]. The [parent] pointer is a back-reference only and is
    represented by the position of a node in its parent's [children]; a
    [nil] slice and an empty one are both the empty list (the code never
    builds an empty non-nil slice). *)
#[warnings="-register-all"]
Inductive Node : Type := mkNode {
  name : string;
  key : string;
  icon : string;
  children : list Node;
  rootName : string;
  connected : bool
}.

(** [newNode(name, key, icon, rootName, parent)]: no children, not
    connected. *)
Definition newNode (nm k ic rn : string) : Node :=
  {| name := nm; key := k; icon := ic; children := [];
     rootName := rn; connected := false |}.

Definition setChildren (d : Node) (cs : list Node) : Node :=
  {| name := name d; key := key d; icon := icon d; children := cs;
     rootName := rootName d; connected := connected d |}.

Definition setIcon (d : Node) (ic : string) : Node :=
  {| name := name d; key := key d; icon := ic; children := children d;
     rootName := rootName d; connected := connected d |}.

Definition setConnected (d : Node) (b : bool) : Node :=
  {| name := name d; key := key d; icon := icon d; children := children d;
     rootName := rootName d; connected := b |}.

Definition dirIcon : string := "img/dir.ico".
Definition fileIcon : string := "img/file.ico".
Definition menuIcon : string := "img/menu.ico".
Definition unconnectedIcon : string := "img/unconnected.ico".
Definition connectedIcon : string := "img/connected.ico".
Definition searchIcon : string := "img/search.ico".

(** The scan at the head of [addNode]:
<<
    for _, v := range d.children { if v.name == keys[0] { child = v } }
>>
    There is no [break], so the last child carrying the label wins. The
    result is the index of that child. *)
Definition scanStep (nm : string) (acc : option nat * nat) (v : Node)
    : option nat * nat :=
  (if String.eqb (name v) nm then Some (snd acc) else fst acc, S (snd acc)).

Definition findChild (nm : string) (cs : list Node) : option nat :=
  (foldl (scanStep nm) (None, 0) cs).1.

(** [func (d *Node) addNode(keys []string, key, rootName string)]. The
    child found (or the fresh one appended) is updated in place by the
    recursive call. *)
Fixpoint addNode (keys : list string) (k rn : string) (d : Node) : Node :=
  match keys with
  | [] => d
  | k0 :: rest =>
      match findChild k0 (children d) with
      | Some i => setChildren d (alter (addNode rest k rn) i (children d))
      | None =>
          let ic := match rest with [] => fileIcon | _ => dirIcon end in
          setChildren d
            (children d ++ [addNode rest k rn (newNode k0 k ic rn)])
      end
  end.

(** One round of the loop over [resp.Kvs] in [connect] and [search]. *)
Definition insertKey (node : Node) (k : string) : Node :=
  addNode (segments k) k (name node) node.

(** The whole loop: the keys are inserted in the order the store returned
    them. *)
Definition buildSubtree (node : Node) (keys : list string) : Node :=
  foldl insertKey node keys.

(** [node.children = nil]. *)
Definition resetSubtree (node : Node) : Node := setChildren node [].

(** ** Paths and measures of a tree *)

(** The child [addNode] descends into for the label [nm]. *)
Definition child (nm : string) (d : Node) : option Node :=
  i ← findChild nm (children d); children d !! i.

(** The same child by recursion on the list: the last one labelled [nm]. *)
Fixpoint lastNamed (nm : string) (cs : list Node) : option Node :=
  match cs with
  | [] => None
  | c :: cs' =>
      match lastNamed nm cs' with
      | Some x => Some x
      | None => if String.eqb (name c) nm then Some c else None
      end
  end.

(** The node reached from [d] by following the labels of [p], choosing at
    every level the child [addNode] would choose. *)
Fixpoint findPath (p : list string) (d : Node) : option Node :=
  match p with
  | [] => Some d
  | s :: p' => c ← child s d; findPath p' c
  end.

Definition hasPath (p : list string) (d : Node) : bool :=
  match findPath p d with Some _ => true | None => false end.

(** All nodes strictly below [d], parents before their children. *)
Fixpoint descendants (d : Node) : list Node :=
  c ← children d; c :: descendants c.

Definition isLeaf (n : Node) : Prop := icon n = fileIcon.
Definition isDirectory (n : Node) : Prop := icon n = dirIcon.

#[global] Instance isLeaf_dec n : Decision (isLeaf n).
Proof. unfold isLeaf. apply _. Defined.
#[global] Instance isDirectory_dec n : Decision (isDirectory n).
Proof. unfold isDirectory. apply _. Defined.

(** The Leaf nodes under [d], their keys, and the number of Directory
    nodes under [d]. *)
Definition leaves (d : Node) : list Node := filter isLeaf (descendants d).
Definition leafKeys (d : Node) : list string := key <$> leaves d.
Definition leafCount (d : Node) : nat := length (leaves d).
Definition dirCount (d : Node) : nat :=
  length (filter isDirectory (descendants d)).

(** Segment paths. *)
Fixpoint isPrefix (p q : list string) : bool :=
  match p, q with
  | [], _ => true
  | a :: p', b :: q' => String.eqb a b && isPrefix p' q'
  | _ :: _, [] => false
  end.

(** The non-terminal prefixes of a segment path: non-empty and proper. *)
Fixpoint properPrefixes (ks : list string) : list (list string) :=
  match ks with
  | [] => []
  | s :: rest =>
      match rest with
      | [] => []
      | _ :: _ => [s] :: (cons s <$> properPrefixes rest)
      end
  end.

(** The distinct non-terminal path prefixes across a key list. *)
Definition dirPrefixes (K : list string) : gset (list string) :=
  ⋃ ((fun k => list_to_set (properPrefixes (segments k))) <$> K).

(** No key's segment path is a prefix of another key's segment path (in
    particular the segment paths are pairwise distinct). *)
Definition incomparable (k k' : string) : bool :=
  negb (isPrefix (segments k) (segments k')) &&
  negb (isPrefix (segments k') (segments k)).

Fixpoint prefixFree (K : list string) : bool :=
  match K with
  | [] => true
  | k :: K' => forallb (incomparable k) K' && prefixFree K'
  end.

(** ** The session state *)

(** A [*clientv3.Client]: the identity of one client connection. *)
Definition Handle : Type := nat.

(** [type EtcdConfig struct]. [Host] and [Port] only feed [Endpoint] when a
    connection is added and are left out. *)
Record EtcdConfig : Type := mkEtcdConfig {
  Name : string;
  Endpoint : string;
  Username : string;
  Password : string;
  Client : option Handle
}.

Definition withClient (ec : EtcdConfig) (c : option Handle) : EtcdConfig :=
  {| Name := Name ec; Endpoint := Endpoint ec; Username := Username ec;
     Password := Password ec; Client := c |}.

(** What the program shows or publishes: the error box of
    [walk.MsgBox(mainWindow, "Error", text, walk.MsgBoxIconError)] and the
    two tree-model notifications, each carrying the label of its node. *)
Inductive Event : Type :=
  | MsgBoxError (text : string)
  | ItemChanged (nm : string)
  | ItemsReset (nm : string).

(** The global variables the session operations read and write:
    [etcdConfigs] (a map of pointers: a field update through [ec] is an
    update of the entry [ec] was read from), the handles [Close] was called
    on, the events so far, and the texts of the [key] and [value] edits. *)
Record State : Type := mkState {
  etcdConfigs : gmap string EtcdConfig;
  closed : list Handle;
  events : list Event;
  keyText : string;
  valueText : string
}.

(** The collaborators: the etcd client library and the tree view. [None]
    and [false] are the error results. *)
Record World : Type := mkWorld {
  (** [clientv3.New(clientv3.Config{...})] *)
  clientNew : EtcdConfig -> option Handle;
  (** [client.Status(timeoutCtx, ec.Endpoint)] answered within 2 s *)
  clientStatus : Handle -> string -> bool;
  (** [client.Get(ctx, prefix, WithPrefix(), WithKeysOnly())]: the keys of
      [resp.Kvs] in the order returned *)
  clientGet : Handle -> string -> option (list string);
  (** [client.Get(ctx, node.key)]: the values of [resp.Kvs] *)
  clientGetValue : Handle -> string -> option (list string);
  (** [nodes.SetExpanded(node, true)] *)
  setExpanded : Node -> bool
}.

Definition publish (e : Event) (st : State) : State :=
  {| etcdConfigs := etcdConfigs st; closed := closed st;
     events := events st ++ [e];
     keyText := keyText st; valueText := valueText st |}.

Definition msgBoxError (text : string) (st : State) : State :=
  publish (MsgBoxError text) st.

(** [ec.Client = c] for the configuration stored under [nm]. *)
Definition setClient (nm : string) (ec : EtcdConfig) (c : option Handle)
    (st : State) : State :=
  {| etcdConfigs := <[nm := withClient ec c]> (etcdConfigs st);
     closed := closed st; events := events st;
     keyText := keyText st; valueText := valueText st |}.

(** [client.Close()] *)
Definition closeClient (c : Handle) (st : State) : State :=
  {| etcdConfigs := etcdConfigs st; closed := closed st ++ [c];
     events := events st;
     keyText := keyText st; valueText := valueText st |}.

(** [key.SetText(k); value.SetText(v)] *)
Definition setTexts (k v : string) (st : State) : State :=
  {| etcdConfigs := etcdConfigs st; closed := closed st;
     events := events st; keyText := k; valueText := v |}.

(** [func (d *Node) refreshNodeIcon(icon string)] *)
Definition refreshNodeIcon (d : Node) (ic : string) (st : State)
    : State * Node :=
  (publish (ItemChanged (name d)) st, setIcon d ic).

Definition hasChildren (d : Node) : bool :=
  match children d with [] => false | _ :: _ => true end.

(** [type NodeTreeModel struct] *)
Record NodeTreeModel : Type := mkNodeTreeModel { roots : list Node }.

(** [func newNodeTreeModel()]: the root "All" with one unconnected child
    per configuration, in the iteration order of the map. Every child is
    created with an empty [rootName]. *)
Definition newNodeTreeModel (cfgs : gmap string EtcdConfig) : NodeTreeModel :=
  {| roots :=
       [setChildren (newNode "All" "" menuIcon "")
          ((fun ec => newNode (Name ec) "" unconnectedIcon "")
             <$> (map_to_list cfgs).*2)] |}.

(** ** The session operations *)

(** [func connect(node *Node)]: the body of the goroutine, run to its end.
    The wait dialog is left out. *)
Definition connect (w : World) (node : Node) (st : State) : State * Node :=
  match etcdConfigs st !! name node with
  | None => (st, node)
  | Some ec =>
      match clientNew w ec with
      | None => (msgBoxError "Connect failed." st, node)
      | Some client =>
          if negb (clientStatus w client (Endpoint ec))
          then (msgBoxError "Connect failed." st, node)
          else
            let st := setClient (name node) ec (Some client) st in
            match clientGet w client "/" with
            | None => (msgBoxError "Connect failed." st, node)
            | Some kvs =>
                let node := buildSubtree node kvs in
                let '(st, node) := refreshNodeIcon node connectedIcon st in
                let st := publish (ItemsReset (name node)) st in
                if hasChildren node && negb (setExpanded w node)
                then (msgBoxError "Connect failed." st, node)
                else (setTexts "" "" st, setConnected node true)
            end
      end
  end.

(** [func search(searchKey string, node *Node)] *)
Definition search (w : World) (searchKey : string) (node : Node) (st : State)
    : State * Node :=
  match etcdConfigs st !! name node with
  | None => (st, node)
  | Some ec =>
      match Client ec with
      | None => (st, node)
      | Some client =>
          let node := resetSubtree node in
          match clientGet w client searchKey with
          | None => (msgBoxError "Search failed." st, node)
          | Some kvs =>
              let node := buildSubtree node kvs in
              let '(st, node) :=
                if String.eqb searchKey ""
                then refreshNodeIcon node connectedIcon st
                else refreshNodeIcon node searchIcon st in
              let st := publish (ItemsReset (name node)) st in
              if hasChildren node && negb (setExpanded w node)
              then (msgBoxError "Search failed." st, node)
              else (setTexts "" "" st, node)
          end
      end
  end.

(** [func disconnect(node *Node)]. The configuration is looked up under
    [node.rootName]. *)
Definition disconnect (node : Node) (st : State) : State * Node :=
  let node := resetSubtree node in
  let st :=
    match etcdConfigs st !! rootName node with
    | None => st
    | Some ec =>
        match Client ec with
        | None => st
        | Some client =>
            setClient (rootName node) ec None (closeClient client st)
        end
    end in
  let '(st, node) := refreshNodeIcon node unconnectedIcon st in
  let st := publish (ItemsReset (name node)) st in
  (st, setConnected node false).

(** The guard of the [OnMouseDown] handler under which a left click calls
    [connect] and a right click shows the Connect action:
    [node.parent != nil && node.key == "" && !node.connected]. *)
Definition connectOffered (hasParent : bool) (node : Node) : bool :=
  hasParent && String.eqb (key node) "" && negb (connected node).

(** The left-button branch of [OnMouseDown]. *)
Definition onLeftClick (w : World) (hasParent : bool) (node : Node)
    (st : State) : State * Node :=
  if connectOffered hasParent node then connect w node st
  else if negb (hasChildren node) && negb (String.eqb (key node) "") then
    match etcdConfigs st !! rootName node with
    | None => (st, node)
    | Some ec =>
        match Client ec with
        | None => (st, node)
        | Some client =>
            match clientGetValue w client (key node) with
            | None => (msgBoxError "Connect failed." st, node)
            | Some vs =>
                (foldl (fun st v => setTexts (key node) v st) st vs, node)
            end
        end
    end
  else (setTexts "" "" st, node).

(** The Reconnect action: [disconnect(node)] then [connect(node)]. *)
Definition reconnect (w : World) (node : Node) (st : State) : State * Node :=
  let '(st, node) := disconnect node st in connect w node st.

(** A store that answers a prefix query with those of its keys that start
    with the prefix, probes and connects without error, and a view that
    expands every node. *)
Definition prefixStore (h : Handle) (store : list string) : World :=
  {| clientNew := fun _ => Some h;
     clientStatus := fun _ _ => true;
     clientGet := fun _ p =>
       Some (filter (fun k => String.prefix p k = true) store);
     clientGetValue := fun _ _ => Some [];
     setExpanded := fun _ => true |}.

(** The icon of a node created for the label followed by [rest]. *)
Definition iconFor (rest : list string) : string :=
  match rest with [] => fileIcon | _ :: _ => dirIcon end.

(** The two ways one level of [addNode] goes: the label is missing and a
    child is appended, or the last child carrying it is updated where it
    stands. *)
Inductive AddView (k0 : string) (rest : list string) (k rn : string)
    (d : Node) : Prop :=
  | AddFresh :
      findChild k0 (children d) = None ->
      child k0 d = None ->
      children (addNode (k0 :: rest) k rn d) =
        children d
          ++ [addNode rest k rn (newNode k0 k (iconFor rest) rn)] ->
      AddView k0 rest k rn d
  | AddFound (l1 l2 : list Node) (c : Node) :
      children d = l1 ++ c :: l2 ->
      name c = k0 ->
      lastNamed k0 l2 = None ->
      child k0 d = Some c ->
      children (addNode (k0 :: rest) k rn d) =
        l1 ++ addNode rest k rn c :: l2 ->
      AddView k0 rest k rn d.

(** A node without its subtree. *)
Definition shallow (n : Node) : Node := setChildren n [].

(** The part of a segment path that is not in the tree yet: what is left
    of [keys] where the descent of [addNode] first finds no child. *)
Fixpoint missing (keys : list string) (d : Node) : list string :=
  match keys with
  | [] => []
  | s :: rest =>
      match child s d with
      | Some c => missing rest c
      | None => keys
      end
  end.

(** The nodes [addNode] creates for the missing labels [l] of the key [k]:
    directories, and a file for the last label. *)
Fixpoint chain (k rn : string) (l : list string) : list Node :=
  match l with
  | [] => []
  | s :: rest => newNode s k (iconFor rest) rn :: chain k rn rest
  end.

Definition isProperPrefix (p q : list string) : bool :=
  isPrefix p q && Nat.ltb (length p) (length q).

(** What holds of every node the loop over the keys [K] creates under a
    root named [rn]: it carries one of the keys, whether it is a file or a
    directory; it is one of the two, and a directory has a child. *)
Definition builtShape (K : list string) (rn : string) (n : Node) : Prop :=
  key n ∈ K /\ rootName n = rn /\ connected n = false /\
  (isLeaf n \/ (isDirectory n /\ children n <> [])).

(** A Leaf has no children. *)
Definition leafChildless (n : Node) : Prop := isLeaf n -> children n = [].

(** ** A session to run the operations on *)

(** One configured store, not yet connected, the state at start-up, and
    the node [newNodeTreeModel] creates for the store. *)
Definition etcd1 : EtcdConfig :=
  {| Name := "etcd1"; Endpoint := "http://127.0.0.1:2379";
     Username := "root"; Password := ""; Client := None |}.

Definition startState : State :=
  {| etcdConfigs := {["etcd1" := etcd1]}; closed := []; events := [];
     keyText := ""; valueText := "" |}.

Definition root1 : Node := newNode "etcd1" "" unconnectedIcon "".

(** A store whose prefix query fails. *)
Definition queryFails (h : Handle) : World :=
  {| clientNew := fun _ => Some h;
     clientStatus := fun _ _ => true;
     clientGet := fun _ _ => None;
     clientGetValue := fun _ _ => None;
     setExpanded := fun _ => true |}.

(** A store as [prefixStore], seen through a view that fails to expand. *)
Definition expandFails (h : Handle) (store : list string) : World :=
  {| clientNew := fun _ => Some h;
     clientStatus := fun _ _ => true;
     clientGet := clientGet (prefixStore h store);
     clientGetValue := fun _ _ => Some [];
     setExpanded := fun _ => false |}.

(** The children of a node carry pairwise distinct labels. *)
Definition distinctLabels (n : Node) : Prop := NoDup (name <$> children n).

(** ** The tree-item methods and the rest of the handlers *)

(** [func (d *Node) Text()], [ChildCount()] and [ChildAt(index)]; an index
    out of range panics in the code and is [None] here. *)
Definition Text (d : Node) : string := name d.
Definition ChildCount (d : Node) : nat := length (children d).
Definition ChildAt (d : Node) (index : nat) : option Node :=
  children d !! index.

(** [func (m *NodeTreeModel) RootCount()] and [RootAt(index)]. *)
Definition RootCount (m : NodeTreeModel) : nat := length (roots m).
Definition RootAt (m : NodeTreeModel) (index : nat) : option Node :=
  roots m !! index.

(** The first label of a key's segment path ([keys[0]] of the outermost
    call of [addNode]). *)
Definition firstSegment (k : string) : string :=
  match segments k with
  | s :: _ => s
  | [] => ""
  end.

(** A list of labels with one more at its end unless it is there. *)
Definition appendNew (l : list string) (s : string) : list string :=
  if decide (s ∈ l) then l else l ++ [s].

(** The segments put together again, the separator between them. *)
Fixpoint Join (segs : list string) (sep : ascii) : string :=
  match segs with
  | [] => ""
  | s :: rest =>
      match rest with
      | [] => s
      | _ :: _ => s +:+ String sep (Join rest sep)
      end
  end.

(** The right-button branch of [OnMouseDown]: which of the five context
    menu actions are made visible for the node under the mouse. *)
Record Actions : Type := mkActions {
  showConnect : bool;
  showReconnect : bool;
  showDisconnect : bool;
  showSearch : bool;
  showDelete : bool
}.

Definition menuVisibility (hasParent : bool) (node : Node) : Actions :=
  if hasParent && String.eqb (key node) "" && negb (connected node) then
    {| showConnect := true; showReconnect := false; showDisconnect := false;
       showSearch := false; showDelete := true |}
  else if hasParent && String.eqb (key node) "" && connected node then
    {| showConnect := false; showReconnect := true; showDisconnect := true;
       showSearch := true; showDelete := true |}
  else
    {| showConnect := false; showReconnect := false; showDisconnect := false;
       showSearch := false; showDelete := false |}.

(** What the add and delete handlers show or publish beyond [Event]. *)
Inductive ModelEvent : Type :=
  | MsgBoxWarning (text : string)
  | ItemInserted (nm : string)
  | ItemRemoved (nm : string).

(** [jsoniter.Marshal(etcdConfigs)] and
    [ioutil.WriteFile("config.json", content, 0777)]; [None] and [false]
    are the error results. *)
Record Files : Type := mkFiles {
  Marshal : gmap string EtcdConfig -> option string;
  WriteFile : string -> bool
}.

Definition setConfigs (m : gmap string EtcdConfig) (st : State) : State :=
  {| etcdConfigs := m; closed := closed st; events := events st;
     keyText := keyText st; valueText := valueText st |}.


(** The add-connection dialog. [createAddNewConnectionDialog] allocates
    one [*EtcdConfig] and binds the fields of the dialog to it; the Save
    button stores that very pointer in [etcdConfigs]. [bound] is the struct
    the pointer refers to and [storedUnder] the names under which the
    pointer is in the map: those entries are the struct itself, and what
    is written to the struct is written to them. The presses of one dialog
    follow each other with nothing in between (the dialog is modal). *)
Record Dialog : Type := mkDialog {
  bound : EtcdConfig;
  storedUnder : list string
}.

(** [ec := new(EtcdConfig); ec.Name = "ConnectionName"; ...] *)
Definition newDialog : Dialog :=
  {| bound := {| Name := "ConnectionName"; Endpoint := ""; Username := "";
                 Password := ""; Client := None |};
     storedUnder := [] |}.

(** What the bound fields of the struct hold when [db.Submit()] has
    returned, with or without an error; [formPort] is the text
    [strconv.FormatFloat(ec.Port, 'f', -1, 64)] gives for the port. *)
Record ConnectionForm : Type := mkConnectionForm {
  formName : string;
  formHost : string;
  formPort : string;
  formUsername : string;
  formPassword : string
}.

(** The struct after [db.Submit()]: the bound fields are written, the
    endpoint and the client are not bound. *)
Definition submitInto (f : ConnectionForm) (ec : EtcdConfig) : EtcdConfig :=
  {| Name := formName f; Endpoint := Endpoint ec;
     Username := formUsername f; Password := formPassword f;
     Client := Client ec |}.

Definition withEndpoint (ec : EtcdConfig) (e : string) : EtcdConfig :=
  {| Name := Name ec; Endpoint := e; Username := Username ec;
     Password := Password ec; Client := Client ec |}.

(** The entries of the map that are the struct, brought to its content. *)
Definition syncStored (names : list string) (ec : EtcdConfig)
    (m : gmap string EtcdConfig) : gmap string EtcdConfig :=
  foldr (fun nm m => <[nm := ec]> m) m names.

(** One press of the Save button of the add-connection dialog.
    [submitOk] is whether [db.Submit()] returned no error and [f] what it
    left in the bound fields. The result holds the state, what was shown
    or published, whether the dialog was accepted, and the dialog for the
    next press. *)
Definition saveConnection (fs : Files) (submitOk : bool) (f : ConnectionForm)
    (dlg : Dialog) (st : State) : State * list ModelEvent * bool * Dialog :=
  let ec := submitInto f (bound dlg) in
  let st := setConfigs (syncStored (storedUnder dlg) ec (etcdConfigs st)) st in
  let dlg := {| bound := ec; storedUnder := storedUnder dlg |} in
  if negb submitOk then (msgBoxError "Save failed." st, [], false, dlg)
  else
    match etcdConfigs st !! Name ec with
    | Some _ =>
        (st, [MsgBoxWarning "Please enter a name that does not exist."],
         false, dlg)
    | None =>
        let ec :=
          withEndpoint ec ("http://" +:+ formHost f +:+ ":" +:+ formPort f) in
        let names := Name ec :: storedUnder dlg in
        let st := setConfigs (syncStored names ec (etcdConfigs st)) st in
        let dlg := {| bound := ec; storedUnder := names |} in
        match Marshal fs (etcdConfigs st) with
        | None => (msgBoxError "Save failed." st, [], false, dlg)
        | Some content =>
            if negb (WriteFile fs content)
            then (msgBoxError "Save failed." st, [], false, dlg)
            else (st, [ItemInserted (Name ec)], true, dlg)
        end
    end.

(** A store with one value under every key. *)
Definition valueStore (h : Handle) (store : list string) : World :=
  {| clientNew := fun _ => Some h;
     clientStatus := fun _ _ => true;
     clientGet := clientGet (prefixStore h store);
     clientGetValue := fun _ k => Some ["value of " +:+ k];
     setExpanded := fun _ => true |}.

(** Files that can always be written, and files that cannot. *)
Definition goodFiles : Files :=
  {| Marshal := fun _ => Some "{}"; WriteFile := fun _ => true |}.
Definition readOnlyFiles : Files :=
  {| Marshal := fun _ => Some "{}"; WriteFile := fun _ => false |}.

(** [k] is the first of the keys [K] whose segment path runs through the
    path [p]: the key whose insertion creates the node at [p]. *)
Definition createdBy (K : list string) (p : list string) (k : string)
    : Prop :=
  exists K1 K2, K = K1 ++ k :: K2 /\ isPrefix p (segments k) = true /\
                forall k', k' ∈ K1 -> isPrefix p (segments k') = false.

(** * Properties *)

(** ** The operations on small inputs *)

Example segments_abc : segments "/a/b/c" = ["a"; "b"; "c"].
Proof. reflexivity. Qed.

Example segments_no_slash : segments "a" = ["a"].
Proof. reflexivity. Qed.

Example segments_double_slash : segments "//a" = [""; "a"].
Proof. reflexivity. Qed.

Example segments_empty : segments "" = [""].
Proof. reflexivity. Qed.

(** The keys "/a/b/c", "/a/b/d", "/a/e": three leaves, two directories.
    The directories carry the key that created them. *)
Example build_example :
  buildSubtree root1 ["/a/b/c"; "/a/b/d"; "/a/e"]
  = setChildren root1
      [setChildren (newNode "a" "/a/b/c" dirIcon "etcd1")
         [setChildren (newNode "b" "/a/b/c" dirIcon "etcd1")
            [newNode "c" "/a/b/c" fileIcon "etcd1";
             newNode "d" "/a/b/d" fileIcon "etcd1"];
          newNode "e" "/a/e" fileIcon "etcd1"]].
Proof. reflexivity. Qed.

Example counts_example :
  leafKeys (buildSubtree root1 ["/a/b/c"; "/a/b/d"; "/a/e"])
    = ["/a/b/c"; "/a/b/d"; "/a/e"] /\
  dirCount (buildSubtree root1 ["/a/b/c"; "/a/b/d"; "/a/e"]) = 2 /\
  size (dirPrefixes ["/a/b/c"; "/a/b/d"; "/a/e"]) = 2.
Proof. repeat split; vm_compute; reflexivity. Qed.

(** The last child with the label is the one found. *)
Example findChild_last :
  findChild "a" [newNode "a" "1" dirIcon ""; newNode "b" "2" dirIcon "";
                 newNode "a" "3" dirIcon ""] = Some 2.
Proof. reflexivity. Qed.

(** ** The scan for a child *)

Section FindChild.
Variable nm : string.

(** The scan from any index and any earlier find, in terms of the scan
    from the start. *)
Lemma scan_shift (cs : list Node) (acc : option nat) (n : nat) :
  (foldl (scanStep nm) (acc, n) cs).1 =
  match (foldl (scanStep nm) (None, 0) cs).1 with
  | Some i => Some (n + i)
  | None => acc
  end.
Proof.
  revert acc n. induction cs as [|c cs IH]; intros acc n; [done|].
  cbn [foldl]. unfold scanStep at 2 4. cbn [fst snd].
  rewrite IH. rewrite (IH _ 1).
  destruct (foldl (scanStep nm) (None, 0) cs).1 as [i|].
  - f_equal. lia.
  - destruct (String.eqb (name c) nm); [f_equal; lia | done].
Qed.

Lemma findChild_nil : findChild nm [] = None.
Proof. done. Qed.

Lemma findChild_cons (c : Node) (cs : list Node) :
  findChild nm (c :: cs) =
  match findChild nm cs with
  | Some i => Some (S i)
  | None => if String.eqb (name c) nm then Some 0 else None
  end.
Proof.
  unfold findChild. cbn [foldl]. unfold scanStep at 2. cbn [fst snd].
  rewrite (scan_shift cs _ 1).
  destruct (foldl (scanStep nm) (None, 0) cs).1; done.
Qed.

Lemma findChild_app (l1 l2 : list Node) :
  findChild nm (l1 ++ l2) =
  match findChild nm l2 with
  | Some i => Some (length l1 + i)
  | None => findChild nm l1
  end.
Proof.
  induction l1 as [|c l1 IH]; cbn [app length].
  - by destruct (findChild nm l2).
  - rewrite !findChild_cons, IH.
    destruct (findChild nm l2); [done|].
    by destruct (findChild nm l1).
Qed.

Lemma findChild_split (cs : list Node) (i : nat) :
  findChild nm cs = Some i ->
  exists l1 c l2, cs = l1 ++ c :: l2 /\ length l1 = i /\ name c = nm
                  /\ findChild nm l2 = None.
Proof.
  revert i. induction cs as [|c cs IH]; intros i; [done|].
  rewrite findChild_cons.
  destruct (findChild nm cs) as [j|] eqn:Hj.
  - intros [= <-]. destruct (IH j eq_refl) as (l1 & c' & l2 & -> & <- & ? & ?).
    by exists (c :: l1), c', l2.
  - destruct (String.eqb (name c) nm) eqn:Hc; [|done].
    intros [= <-]. apply String.eqb_eq in Hc.
    by exists [], c, cs.
Qed.

Lemma findChild_middle (l1 l2 : list Node) (c : Node) :
  name c = nm -> findChild nm l2 = None ->
  findChild nm (l1 ++ c :: l2) = Some (length l1).
Proof.
  intros Hc Hl2. rewrite findChild_app, findChild_cons, Hl2.
  apply String.eqb_eq in Hc. rewrite Hc. f_equal. lia.
Qed.

Lemma findChild_middle_ne (l1 l2 : list Node) (c c' : Node) :
  name c <> nm -> name c' <> nm ->
  findChild nm (l1 ++ c' :: l2) = findChild nm (l1 ++ c :: l2).
Proof.
  intros Hc Hc'. rewrite !findChild_app, !findChild_cons.
  apply String.eqb_neq in Hc, Hc'. by rewrite Hc, Hc'.
Qed.
End FindChild.

Lemma lastNamed_app (nm : string) (l1 l2 : list Node) :
  lastNamed nm (l1 ++ l2) =
  match lastNamed nm l2 with
  | Some x => Some x
  | None => lastNamed nm l1
  end.
Proof.
  induction l1 as [|c l1 IH]; cbn [app lastNamed].
  - by destruct (lastNamed nm l2).
  - rewrite IH. by destruct (lastNamed nm l2).
Qed.

Lemma findChild_lookup (nm : string) (cs : list Node) (i : nat) :
  findChild nm cs = Some i -> exists c, cs !! i = Some c /\ name c = nm.
Proof.
  intros (l1 & c & l2 & -> & <- & Hc & _)%findChild_split.
  exists c. split; [|done]. by apply list_lookup_middle.
Qed.

Lemma lastNamed_findChild (nm : string) (cs : list Node) :
  lastNamed nm cs = (i ← findChild nm cs; cs !! i).
Proof.
  induction cs as [|c cs IH]; [done|].
  cbn [lastNamed]. rewrite findChild_cons, IH.
  destruct (findChild nm cs) as [i|] eqn:Hi; cbn.
  - destruct (findChild_lookup _ _ _ Hi) as (x & Hx & _). by rewrite Hx.
  - by destruct (String.eqb (name c) nm).
Qed.

Lemma child_lastNamed (nm : string) (d : Node) :
  child nm d = lastNamed nm (children d).
Proof. unfold child. by rewrite lastNamed_findChild. Qed.

Lemma lastNamed_None (nm : string) (cs : list Node) :
  lastNamed nm cs = None <-> findChild nm cs = None.
Proof.
  rewrite lastNamed_findChild. split.
  - destruct (findChild nm cs) as [i|] eqn:Hi; [|done].
    destruct (findChild_lookup _ _ _ Hi) as (x & Hx & _). cbn. by rewrite Hx.
  - by intros ->.
Qed.

Lemma lastNamed_name (nm : string) (cs : list Node) (c : Node) :
  lastNamed nm cs = Some c -> name c = nm.
Proof.
  rewrite lastNamed_findChild.
  destruct (findChild nm cs) as [i|] eqn:Hi; [|done].
  destruct (findChild_lookup _ _ _ Hi) as (x & Hx & Hn). cbn. rewrite Hx.
  by intros [= <-].
Qed.

(** ** [addNode], one level at a time *)

(** [addNode] changes nothing of a node but its children. *)
Lemma addNode_fields (keys : list string) (k rn : string) (d : Node) :
  addNode keys k rn d = setChildren d (children (addNode keys k rn d)).
Proof.
  destruct keys as [|k0 rest]; cbn [addNode].
  - by destruct d.
  - by destruct (findChild k0 (children d)).
Qed.

Lemma addNode_name keys k rn d : name (addNode keys k rn d) = name d.
Proof. by rewrite addNode_fields. Qed.
Lemma addNode_key keys k rn d : key (addNode keys k rn d) = key d.
Proof. by rewrite addNode_fields. Qed.
Lemma addNode_icon keys k rn d : icon (addNode keys k rn d) = icon d.
Proof. by rewrite addNode_fields. Qed.
Lemma addNode_rootName keys k rn d :
  rootName (addNode keys k rn d) = rootName d.
Proof. by rewrite addNode_fields. Qed.
Lemma addNode_connected keys k rn d :
  connected (addNode keys k rn d) = connected d.
Proof. by rewrite addNode_fields. Qed.

Lemma addNode_view k0 rest k rn d : AddView k0 rest k rn d.
Proof.
  destruct (findChild k0 (children d)) as [i|] eqn:Hi.
  - destruct (findChild_split _ _ _ Hi) as (l1 & c & l2 & Hcs & <- & Hc & Hl2).
    apply (AddFound _ _ _ _ _ l1 l2 c); try done.
    + by apply lastNamed_None.
    + unfold child. rewrite Hi. cbn. rewrite Hcs. by apply list_lookup_middle.
    + cbn [addNode]. rewrite Hi. cbn [children setChildren]. rewrite Hcs.
      rewrite alter_app_r_alt by lia. by rewrite Nat.sub_diag.
  - apply AddFresh; try done.
    + unfold child. by rewrite Hi.
    + cbn [addNode]. rewrite Hi. done.
Qed.

Lemma setChildren_children (d : Node) : setChildren d (children d) = d.
Proof. by destruct d. Qed.

Lemma lastNamed_singleton (nm : string) (c : Node) :
  lastNamed nm [c] = if String.eqb (name c) nm then Some c else None.
Proof. done. Qed.

Lemma child_addNode_eq k0 rest k rn d :
  child k0 (addNode (k0 :: rest) k rn d) =
  Some (addNode rest k rn
          (default (newNode k0 k (iconFor rest) rn) (child k0 d))).
Proof.
  rewrite child_lastNamed.
  destruct (addNode_view k0 rest k rn d) as [_ -> ->| l1 l2 c _ Hc Hl2 -> ->].
  - rewrite lastNamed_app, lastNamed_singleton, addNode_name. cbn [name newNode].
    by rewrite String.eqb_refl.
  - rewrite lastNamed_app. cbn [lastNamed]. rewrite Hl2, addNode_name.
    apply String.eqb_eq in Hc. by rewrite Hc.
Qed.

Lemma child_addNode_ne s k0 rest k rn d :
  s <> k0 -> child s (addNode (k0 :: rest) k rn d) = child s d.
Proof.
  intros Hs. rewrite !child_lastNamed.
  destruct (addNode_view k0 rest k rn d) as [_ _ ->| l1 l2 c -> Hc _ _ ->].
  - rewrite lastNamed_app, lastNamed_singleton, addNode_name. cbn [name newNode].
    apply not_eq_sym, String.eqb_neq in Hs. by rewrite Hs.
  - rewrite !lastNamed_app. cbn [lastNamed]. rewrite addNode_name, Hc.
    apply not_eq_sym, String.eqb_neq in Hs. by rewrite Hs.
Qed.

(** ** Paths through a tree *)

Lemma hasPath_nil d : hasPath [] d = true.
Proof. done. Qed.

Lemma hasPath_cons s p d :
  hasPath (s :: p) d =
  match child s d with Some c => hasPath p c | None => false end.
Proof. unfold hasPath. cbn [findPath]. by destruct (child s d). Qed.

Lemma child_no_children s d : children d = [] -> child s d = None.
Proof. intros Hd. rewrite child_lastNamed, Hd. done. Qed.

Lemma hasPath_no_children p d :
  children d = [] -> hasPath p d = match p with [] => true | _ => false end.
Proof.
  intros Hd. destruct p as [|s p]; [done|].
  by rewrite hasPath_cons, child_no_children.
Qed.

Lemma isPrefix_nil_r p : isPrefix p [] = match p with [] => true | _ => false end.
Proof. by destruct p. Qed.

(** The paths of the tree after an insertion: those it had and the
    prefixes of the inserted segment path. *)
Lemma hasPath_addNode p keys k rn d :
  hasPath p (addNode keys k rn d) = hasPath p d || isPrefix p keys.
Proof.
  revert p d. induction keys as [|k0 rest IH]; intros p d.
  - cbn [addNode]. rewrite isPrefix_nil_r.
    destruct p; [done | by rewrite orb_false_r].
  - destruct p as [|s p]; [done|]. cbn [isPrefix]. rewrite !hasPath_cons.
    destruct (String.eqb s k0) eqn:Hs.
    + apply String.eqb_eq in Hs as ->. rewrite child_addNode_eq, IH.
      destruct (child k0 d) as [c|]; cbn [default andb]; [done|].
      rewrite hasPath_no_children by done. by destruct p.
    + apply String.eqb_neq in Hs. rewrite child_addNode_ne by done.
      cbn [andb]. by rewrite orb_false_r.
Qed.

(** A path already present makes the insertion a no-op. *)
Lemma addNode_hasPath keys k rn d :
  hasPath keys d = true -> addNode keys k rn d = d.
Proof.
  revert d. induction keys as [|k0 rest IH]; intros d; [done|].
  rewrite hasPath_cons. intros Hp.
  rewrite addNode_fields.
  destruct (addNode_view k0 rest k rn d) as [_ Hc _| l1 l2 c Hd _ _ Hc ->].
  - by rewrite Hc in Hp.
  - rewrite Hc in Hp. rewrite IH by done. rewrite <- Hd.
    apply setChildren_children.
Qed.

Lemma isPrefix_refl p : isPrefix p p = true.
Proof. induction p as [|s p IH]; [done|]. cbn. by rewrite String.eqb_refl. Qed.

Lemma isPrefix_trans p q r :
  isPrefix p q = true -> isPrefix q r = true -> isPrefix p r = true.
Proof.
  revert q r. induction p as [|s p IH]; intros q r; [done|].
  destruct q as [|t q]; [done|]. destruct r as [|u r]; [done|]. cbn.
  intros [Hst Hpq]%andb_prop [Htu Hqr]%andb_prop.
  apply String.eqb_eq in Hst as ->. rewrite Htu. cbn. eauto.
Qed.

Lemma isPrefix_app p e : isPrefix p (p ++ e) = true.
Proof. induction p as [|s p IH]; [done|]. cbn. by rewrite String.eqb_refl. Qed.

(** The paths of a tree are closed under prefixes. *)
Lemma hasPath_prefix p q d :
  isPrefix p q = true -> hasPath q d = true -> hasPath p d = true.
Proof.
  revert q d. induction p as [|s p IH]; intros q d; [done|].
  destruct q as [|t q]; [done|]. cbn. intros [Hst Hpq]%andb_prop.
  apply String.eqb_eq in Hst as ->. rewrite !hasPath_cons.
  destruct (child t d); [eauto | done].
Qed.

(** ** The loop over the keys *)

Lemma insertKey_name d k : name (insertKey d k) = name d.
Proof. apply addNode_name. Qed.

Lemma buildSubtree_name d K : name (buildSubtree d K) = name d.
Proof.
  revert d. induction K as [|k K IH]; intros d; [done|].
  cbn. unfold buildSubtree in IH. by rewrite IH, insertKey_name.
Qed.

Lemma buildSubtree_snoc d K k :
  buildSubtree d (K ++ [k]) = insertKey (buildSubtree d K) k.
Proof. unfold buildSubtree. by rewrite foldl_snoc. Qed.

Lemma buildSubtree_cons d K k :
  buildSubtree d (k :: K) = buildSubtree (insertKey d k) K.
Proof. done. Qed.

Lemma hasPath_insertKey p d k :
  hasPath p (insertKey d k) = hasPath p d || isPrefix p (segments k).
Proof. apply hasPath_addNode. Qed.

Lemma hasPath_buildSubtree p d K :
  hasPath p (buildSubtree d K) =
  hasPath p d || existsb (fun k => isPrefix p (segments k)) K.
Proof.
  revert d. induction K as [|k K IH]; intros d.
  - cbn. by rewrite orb_false_r.
  - rewrite buildSubtree_cons, IH, hasPath_insertKey. cbn [existsb].
    by rewrite orb_assoc.
Qed.

Lemma Split_nonempty s sep : Split s sep <> [].
Proof.
  induction s as [|c s IH]; [done|]. cbn.
  destruct (Ascii.eqb c sep); [done|]. by destruct (Split s sep).
Qed.

Lemma segments_nonempty k : segments k <> [].
Proof. apply Split_nonempty. Qed.

(** ** The nodes of a tree *)

Lemma descendants_unfold d :
  descendants d = children d ≫= (fun c => c :: descendants c).
Proof. by destruct d. Qed.

Lemma shallow_descendants_unfold d :
  shallow <$> descendants d =
  children d ≫= (fun c => shallow c :: (shallow <$> descendants c)).
Proof.
  rewrite descendants_unfold. generalize (children d) as cs.
  induction cs as [|c cs IH]; [done|].
  rewrite !bind_cons, fmap_app, IH. done.
Qed.

Lemma shallow_addNode keys k rn d : shallow (addNode keys k rn d) = shallow d.
Proof. by rewrite addNode_fields. Qed.

Lemma missing_no_children keys d : children d = [] -> missing keys d = keys.
Proof.
  intros Hd. destruct keys as [|s rest]; [done|].
  cbn. by rewrite child_no_children.
Qed.

Lemma missing_hasPath keys d : missing keys d = [] <-> hasPath keys d = true.
Proof.
  revert d. induction keys as [|s rest IH]; intros d; [done|].
  rewrite hasPath_cons. cbn. destruct (child s d); [apply IH | done].
Qed.

(** What an insertion adds to the nodes of a tree: one node for each
    missing label, and nothing else changes but the children of the nodes
    on the way. *)
Lemma shallow_descendants_addNode keys k rn d :
  shallow <$> descendants (addNode keys k rn d) ≡ₚ
  (shallow <$> descendants d) ++ chain k rn (missing keys d).
Proof.
  revert d. induction keys as [|k0 rest IH]; intros d.
  - cbn. by rewrite app_nil_r.
  - rewrite (shallow_descendants_unfold (addNode _ _ _ _)).
    rewrite (shallow_descendants_unfold d). cbn [missing].
    destruct (addNode_view k0 rest k rn d) as [_ -> ->| l1 l2 c -> _ _ -> ->].
    + rewrite bind_app, bind_cons. cbn [mbind list_bind]. rewrite app_nil_r.
      rewrite shallow_addNode, IH.
      rewrite missing_no_children by done. cbn. done.
    + rewrite !bind_app, !bind_cons, shallow_addNode, IH.
      solve_Permutation.
Qed.

Lemma filter_shallow (P : Node -> Prop) `{!forall n, Decision (P n)}
    (l : list Node) :
  (forall n, P (shallow n) <-> P n) ->
  filter P (shallow <$> l) = shallow <$> filter P l.
Proof.
  intros HP. induction l as [|c l IH]; [done|].
  rewrite fmap_cons, !filter_cons, IH.
  destruct (decide (P c)) as [H1|H1], (decide (P (shallow c))) as [H2|H2];
    try done; exfalso; [apply H2 | apply H1]; by apply HP.
Qed.

Lemma filter_all {A} (P : A -> Prop) `{!forall x, Decision (P x)} (l : list A) :
  (forall x, P x) -> filter P l = l.
Proof.
  intros HP. induction l as [|x l IH]; [done|].
  by rewrite filter_cons, decide_True, IH.
Qed.

Lemma leafKeys_shallow d :
  leafKeys d = key <$> filter isLeaf (shallow <$> descendants d).
Proof.
  unfold leafKeys, leaves. rewrite filter_shallow by done.
  rewrite <- list_fmap_compose. done.
Qed.

Lemma dirCount_shallow d :
  dirCount d = length (filter isDirectory (shallow <$> descendants d)).
Proof.
  unfold dirCount. rewrite filter_shallow by done. by rewrite length_fmap.
Qed.

Lemma chain_leaves k rn l :
  key <$> filter isLeaf (chain k rn l) = match l with [] => [] | _ => [k] end.
Proof.
  induction l as [|s rest IH]; [done|].
  cbn [chain]. rewrite filter_cons.
  destruct rest as [|t rest].
  - rewrite decide_True by done. done.
  - rewrite decide_False by done. done.
Qed.

Lemma chain_dirs k rn l :
  length (filter isDirectory (chain k rn l)) = pred (length l).
Proof.
  induction l as [|s rest IH]; [done|].
  cbn [chain]. rewrite filter_cons.
  destruct rest as [|t rest].
  - rewrite decide_False by done. done.
  - rewrite decide_True by done. cbn [length]. rewrite IH. done.
Qed.

(** The Leaf nodes after an insertion: one more, carrying the inserted
    key, unless the whole segment path was in the tree already. *)
Lemma leafKeys_addNode keys k rn d :
  leafKeys (addNode keys k rn d) ≡ₚ
  leafKeys d ++ match missing keys d with [] => [] | _ => [k] end.
Proof.
  rewrite !leafKeys_shallow, shallow_descendants_addNode.
  by rewrite filter_app, fmap_app, chain_leaves.
Qed.

(** The Directory nodes after an insertion: one more for each missing
    label but the last. *)
Lemma dirCount_addNode keys k rn d :
  dirCount (addNode keys k rn d) = dirCount d + pred (length (missing keys d)).
Proof.
  rewrite !dirCount_shallow, shallow_descendants_addNode.
  by rewrite filter_app, length_app, chain_dirs.
Qed.

Lemma length_properPrefixes ks :
  length (properPrefixes ks) = pred (length ks).
Proof.
  induction ks as [|s rest IH]; [done|].
  cbn [properPrefixes]. destruct rest as [|t rest]; [done|].
  cbn [length]. rewrite length_fmap, IH. done.
Qed.

Lemma filter_fmap_cons (P : list string -> Prop) `{!forall p, Decision (P p)}
    (s : string) (l : list (list string)) :
  filter P (cons s <$> l) = cons s <$> filter (fun p => P (s :: p)) l.
Proof.
  induction l as [|p l IH]; [done|].
  rewrite fmap_cons, !filter_cons, IH.
  by destruct (decide (P (s :: p))).
Qed.

(** The missing directories, counted as non-terminal prefixes that are
    not paths of the tree. *)
Lemma missing_properPrefixes keys d :
  pred (length (missing keys d)) =
  length (filter (fun p => hasPath p d = false) (properPrefixes keys)).
Proof.
  revert d. induction keys as [|s rest IH]; intros d; [done|].
  cbn [missing properPrefixes].
  destruct rest as [|t rest].
  - by destruct (child s d).
  - rewrite filter_cons, filter_fmap_cons.
    destruct (child s d) as [c|] eqn:Hc.
    + rewrite decide_False by (rewrite hasPath_cons, Hc; done).
      rewrite length_fmap, IH. f_equal. apply list_filter_iff.
      intros p. by rewrite hasPath_cons, Hc.
    + rewrite decide_True by (rewrite hasPath_cons, Hc; done).
      cbn [length]. rewrite length_fmap.
      rewrite filter_all by (intros p; by rewrite hasPath_cons, Hc).
      by rewrite length_properPrefixes.
Qed.

(** ** Segment paths and their prefixes *)

Lemma isPrefix_length p q : isPrefix p q = true -> length p <= length q.
Proof.
  revert q. induction p as [|s p IH]; intros q; cbn; [lia|].
  destruct q as [|t q]; [done|]. intros [_ Hpq]%andb_prop.
  apply IH in Hpq. cbn. lia.
Qed.

Lemma isPrefix_same_length p q :
  isPrefix p q = true -> length p = length q -> p = q.
Proof.
  revert q. induction p as [|s p IH]; intros q.
  - by destruct q.
  - destruct q as [|t q]; [done|]. cbn.
    intros [Hst Hpq]%andb_prop [= Hlen].
    apply String.eqb_eq in Hst as ->. f_equal. by apply IH.
Qed.

Lemma elem_of_properPrefixes p ks :
  p ∈ properPrefixes ks <->
  p <> [] /\ isPrefix p ks = true /\ length p < length ks.
Proof.
  revert p. induction ks as [|s rest IH]; intros p.
  - cbn. rewrite elem_of_nil, isPrefix_nil_r.
    split; [done|]. intros (? & ? & ?). cbn in *. lia.
  - cbn [properPrefixes]. destruct rest as [|t rest].
    + rewrite elem_of_nil. split; [done|]. intros (Hp & Hpre & Hlen).
      destruct p as [|u p]; [done|]. cbn in Hlen.
      destruct p; cbn in Hlen; lia.
    + rewrite elem_of_cons, list_elem_of_fmap. split.
      * intros [->|(q & -> & Hq)].
        -- cbn. rewrite String.eqb_refl. split_and!; try done; lia.
        -- apply IH in Hq as (Hq & Hpre & Hlen). cbn [isPrefix length].
           rewrite String.eqb_refl. cbn [length] in Hlen.
           split_and!; try done; lia.
      * intros (Hp & Hpre & Hlen). destruct p as [|u p]; [done|].
        cbn [isPrefix] in Hpre. apply andb_prop in Hpre as [Hu Hpre].
        apply String.eqb_eq in Hu as ->.
        destruct p as [|v p]; [by left|]. right.
        exists (v :: p). split; [done|]. apply IH.
        split_and!; try done; cbn in *; lia.
Qed.

Lemma NoDup_properPrefixes ks : NoDup (properPrefixes ks).
Proof.
  induction ks as [|s rest IH]; [constructor|].
  cbn [properPrefixes]. destruct rest as [|t rest]; [constructor|].
  constructor.
  - rewrite list_elem_of_fmap. intros (q & [= <-] & Hq).
    apply elem_of_properPrefixes in Hq as (Hq & _). done.
  - apply NoDup_fmap_2; [|done]. by intros p q [= ->].
Qed.

Lemma filter_iff_in {A} (P Q : A -> Prop) `{!forall x, Decision (P x)}
    `{!forall x, Decision (Q x)} (l : list A) :
  (forall x, x ∈ l -> P x <-> Q x) -> filter P l = filter Q l.
Proof.
  induction l as [|x l IH]; intros HPQ; [done|].
  rewrite !filter_cons, IH.
  - destruct (decide (P x)) as [HP|HP], (decide (Q x)) as [HQ|HQ];
      try done; exfalso; [apply HQ | apply HP]; apply (HPQ x); try done;
      by left.
  - intros y Hy. apply HPQ. by right.
Qed.

(** Adding a duplicate-free list to a finite set: the size grows by the
    number of new elements. *)
Lemma size_union_list_to_set (X : gset (list string)) (l : list (list string)) :
  NoDup l ->
  size (X ∪ list_to_set l) = size X + length (filter (fun p => p ∉ X) l).
Proof.
  induction 1 as [|p l Hp Hl IH].
  - cbn. rewrite (right_id_L ∅ (∪)). lia.
  - rewrite list_to_set_cons, filter_cons.
    destruct (decide (p ∉ X)) as [HpX|HpX].
    + replace (X ∪ ({[p]} ∪ list_to_set l))
        with ({[p]} ∪ (X ∪ list_to_set l)) by set_solver.
      rewrite size_union by set_solver.
      rewrite size_singleton, IH. cbn. lia.
    + apply dec_stable in HpX.
      replace (X ∪ ({[p]} ∪ list_to_set l)) with (X ∪ list_to_set l)
        by set_solver.
      apply IH.
Qed.

Lemma dirPrefixes_snoc K k :
  dirPrefixes (K ++ [k]) =
  dirPrefixes K ∪ list_to_set (properPrefixes (segments k)).
Proof.
  unfold dirPrefixes. rewrite fmap_app, union_list_app_L. cbn.
  by rewrite (right_id_L ∅ (∪)).
Qed.

Lemma elem_of_dirPrefixes p K :
  p ∈ dirPrefixes K <->
  exists k, k ∈ K /\ p ∈ properPrefixes (segments k).
Proof.
  unfold dirPrefixes. rewrite elem_of_union_list. split.
  - intros (X & (k & -> & Hk)%list_elem_of_fmap & Hp).
    exists k. split; [done|]. by apply elem_of_list_to_set in Hp.
  - intros (k & Hk & Hp).
    exists (list_to_set (properPrefixes (segments k))). split.
    + apply list_elem_of_fmap. by exists k.
    + by apply elem_of_list_to_set.
Qed.

Lemma incomparable_sym k k' : incomparable k k' = incomparable k' k.
Proof. unfold incomparable. apply andb_comm. Qed.

Lemma prefixFree_snoc K k :
  prefixFree (K ++ [k]) = prefixFree K && forallb (incomparable k) K.
Proof.
  induction K as [|k' K IH].
  - done.
  - cbn [app prefixFree forallb]. rewrite IH, forallb_app. cbn [forallb].
    rewrite (incomparable_sym k' k).
    destruct (forallb (incomparable k') K), (incomparable k k'),
      (prefixFree K), (forallb (incomparable k) K); done.
Qed.

(** ** Leaves and directories of a built tree *)

Lemma descendants_no_children d : children d = [] -> descendants d = [].
Proof. intros Hd. by rewrite descendants_unfold, Hd. Qed.

Lemma forallb_elem_of {A} (f : A -> bool) (l : list A) (x : A) :
  forallb f l = true -> x ∈ l -> f x = true.
Proof.
  intros Hl Hx. apply list_elem_of_In in Hx.
  by apply (proj1 (forallb_forall f l) Hl).
Qed.

Lemma existsb_elem_of {A} (f : A -> bool) (l : list A) :
  existsb f l = true <-> exists x, x ∈ l /\ f x = true.
Proof.
  rewrite existsb_exists. split; intros (x & Hx & Hf); exists x;
    (split; [by apply list_elem_of_In | done]).
Qed.

(** A key that is incomparable with all keys inserted so far is not yet a
    path of the tree. *)
Lemma hasPath_segments_fresh d K k :
  children d = [] -> forallb (incomparable k) K = true ->
  hasPath (segments k) (buildSubtree d K) = false.
Proof.
  intros Hd HK. rewrite hasPath_buildSubtree, hasPath_no_children by done.
  pose proof (segments_nonempty k) as Hk.
  destruct (segments k) as [|s p] eqn:Hseg; [done|]. cbn [orb].
  apply not_true_is_false. intros (k' & Hk' & Hpre)%existsb_elem_of.
  pose proof (forallb_elem_of _ _ _ HK Hk') as Hinc.
  unfold incomparable in Hinc. rewrite Hseg, Hpre in Hinc. done.
Qed.

(** Under the same condition, a non-terminal prefix of the key is a path
    of the tree exactly when it is a non-terminal prefix of an earlier
    key. *)
Lemma hasPath_properPrefix d K k p :
  children d = [] -> forallb (incomparable k) K = true ->
  p ∈ properPrefixes (segments k) ->
  hasPath p (buildSubtree d K) = false <-> p ∉ dirPrefixes K.
Proof.
  intros Hd HK (Hp & Hpre & Hlen)%elem_of_properPrefixes.
  rewrite hasPath_buildSubtree, hasPath_no_children by done.
  destruct p as [|s p]; [done|]. cbn [orb].
  rewrite elem_of_dirPrefixes, <- not_true_iff_false, existsb_elem_of.
  split; intros Hno (k' & Hk' & Hin); apply Hno; exists k'; (split; [done|]).
  - by apply elem_of_properPrefixes in Hin as (_ & ? & _).
  - apply elem_of_properPrefixes. split_and!; [done | done |].
    pose proof (isPrefix_length _ _ Hin) as Hle.
    destruct (decide (length (s :: p) = length (segments k'))) as [Heq|]; [|lia].
    exfalso. apply isPrefix_same_length in Heq; [|done].
    pose proof (forallb_elem_of _ _ _ HK Hk') as Hinc.
    unfold incomparable in Hinc. rewrite <- Heq, Hpre in Hinc.
    by rewrite andb_false_r in Hinc.
Qed.

Lemma build_counts d K :
  children d = [] -> prefixFree K = true ->
  leafKeys (buildSubtree d K) ≡ₚ K /\
  dirCount (buildSubtree d K) = size (dirPrefixes K).
Proof.
  intros Hd. induction K as [|k K IH] using rev_ind; intros HK.
  - unfold leafKeys, leaves, dirCount. cbn [buildSubtree foldl].
    rewrite descendants_no_children by done. done.
  - rewrite prefixFree_snoc in HK. apply andb_prop in HK as [HK Hk].
    destruct (IH HK) as [IHl IHd]. rewrite buildSubtree_snoc. unfold insertKey.
    pose proof (hasPath_segments_fresh d K k Hd Hk) as Hfresh.
    split.
    + rewrite leafKeys_addNode, IHl.
      destruct (missing (segments k) (buildSubtree d K)) eqn:Hm; [|done].
      apply missing_hasPath in Hm. congruence.
    + rewrite dirCount_addNode, IHd, missing_properPrefixes, dirPrefixes_snoc.
      rewrite size_union_list_to_set by apply NoDup_properPrefixes.
      f_equal. f_equal. apply filter_iff_in.
      intros p Hp. by apply (hasPath_properPrefix d K k).
Qed.

(** [C1] (amended) For a target node without children and a list of keys
    none of whose segment paths is a prefix of another's, [buildSubtree]
    yields as many Leaf nodes as there are keys, the keys of the Leaf nodes
    are the given keys (each once), and the number of Directory nodes is
    the number of distinct non-terminal path prefixes of the keys. *)
Theorem buildSubtree_prefixFree_counts (node : Node) (K : list string) :
  children node = [] ->
  prefixFree K = true ->
  leafCount (buildSubtree node K) = length K /\
  leafKeys (buildSubtree node K) ≡ₚ K /\
  dirCount (buildSubtree node K) = size (dirPrefixes K).
Proof.
  intros Hd HK. destruct (build_counts node K Hd HK) as [Hl Hdir].
  split_and!; [|done|done].
  unfold leafCount. rewrite <- (length_fmap key). fold (leafKeys (buildSubtree node K)).
  by rewrite Hl.
Qed.

Lemma buildSubtree_prefixFree_counts_witness :
  let node := newNode "etcd1" "" unconnectedIcon "" in
  let K := ["/a/b/c"; "/a/b/d"; "/a/e"] in
  children node = [] /\ prefixFree K = true /\
  leafCount (buildSubtree node K) = length K /\
  leafKeys (buildSubtree node K) ≡ₚ K /\
  dirCount (buildSubtree node K) = size (dirPrefixes K).
Proof.
  cbn zeta. split; [reflexivity|]. split; [reflexivity|].
  apply buildSubtree_prefixFree_counts; reflexivity.
Defined.

(** [C1] (as stated) Two distinct keys of which the second is a prefix of
    the first give one Leaf, not two. In the other order they give two
    Leaves and no Directory, where the keys have one non-terminal prefix. *)
Lemma buildSubtree_leafCount_counterexample :
  let node := newNode "etcd1" "" unconnectedIcon "" in
  (NoDup ["/a/b"; "/a"] /\ children node = [] /\
   leafCount (buildSubtree node ["/a/b"; "/a"]) <> length ["/a/b"; "/a"] /\
   leafKeys (buildSubtree node ["/a/b"; "/a"]) = ["/a/b"]) /\
  (NoDup ["/a"; "/a/b"] /\
   dirCount (buildSubtree node ["/a"; "/a/b"]) = 0 /\
   size (dirPrefixes ["/a"; "/a/b"]) = 1).
Proof.
  cbn zeta. split_and!; try reflexivity.
  - repeat constructor; set_solver.
  - vm_compute. discriminate.
  - repeat constructor; set_solver.
Qed.

(** ** Insertions that change nothing *)

Lemma buildSubtree_fields d K :
  buildSubtree d K = setChildren d (children (buildSubtree d K)).
Proof.
  revert d. induction K as [|k K IH]; intros d.
  - cbn. by destruct d.
  - rewrite buildSubtree_cons, IH. unfold insertKey.
    by rewrite (addNode_fields _ _ _ d).
Qed.

Lemma resetSubtree_buildSubtree d K :
  resetSubtree (buildSubtree d K) = resetSubtree d.
Proof. by rewrite buildSubtree_fields. Qed.

Lemma buildSubtree_absorb d K :
  (forall k, k ∈ K -> hasPath (segments k) d = true) ->
  buildSubtree d K = d.
Proof.
  induction K as [|k K IH]; intros HK; [done|].
  rewrite buildSubtree_cons. unfold insertKey.
  rewrite addNode_hasPath by (apply HK; by left).
  apply IH. intros k' Hk'. apply HK. by right.
Qed.

Lemma hasPath_buildSubtree_prefix d K k p :
  k ∈ K -> isPrefix p (segments k) = true ->
  hasPath p (buildSubtree d K) = true.
Proof.
  intros Hk Hp. rewrite hasPath_buildSubtree. apply orb_true_iff. right.
  apply existsb_elem_of. by exists k.
Qed.

Lemma lastNamed_None_names (nm : string) (cs : list Node) :
  lastNamed nm cs = None -> nm ∉ name <$> cs.
Proof.
  induction cs as [|c cs IH]; cbn [lastNamed]; intros Hcs.
  - apply not_elem_of_nil.
  - destruct (lastNamed nm cs); [done|].
    destruct (String.eqb (name c) nm) eqn:Hc; [done|].
    apply String.eqb_neq in Hc. rewrite fmap_cons, not_elem_of_cons.
    split; [done | by apply IH].
Qed.

(** An insertion never puts two children with one label under a node. *)
Lemma distinctLabels_addNode keys k rn d :
  Forall distinctLabels (d :: descendants d) ->
  Forall distinctLabels
    (addNode keys k rn d :: descendants (addNode keys k rn d)).
Proof.
  revert d. induction keys as [|k0 rest IH]; intros d Hd; [done|].
  apply Forall_cons in Hd as [Hroot Hdesc].
  rewrite descendants_unfold in Hdesc. unfold distinctLabels in Hroot.
  rewrite descendants_unfold. apply Forall_cons. unfold distinctLabels at 1.
  destruct (addNode_view k0 rest k rn d)
    as [_ Hc ->| l1 l2 c Hcs _ _ _ ->].
  - rewrite child_lastNamed in Hc. apply lastNamed_None_names in Hc. split.
    + rewrite fmap_app. apply NoDup_app. split_and!; [done | | ].
      * intros x Hx. rewrite list_fmap_singleton, addNode_name.
        cbn [name newNode]. rewrite list_elem_of_singleton. by intros ->.
      * apply NoDup_singleton.
    + rewrite bind_app. apply Forall_app. split; [done|].
      rewrite bind_cons. cbn [mbind list_bind]. rewrite app_nil_r.
      apply IH. apply Forall_cons. split.
      * unfold distinctLabels. cbn. constructor.
      * by rewrite descendants_no_children.
  - rewrite Hcs in Hroot, Hdesc. split.
    + rewrite fmap_app, fmap_cons, addNode_name.
      by rewrite fmap_app, fmap_cons in Hroot.
    + rewrite bind_app, bind_cons in Hdesc.
      apply Forall_app in Hdesc as [H1 H2].
      apply Forall_app in H2 as [Hc H2].
      rewrite bind_app, bind_cons.
      apply Forall_app. split; [done|]. apply Forall_app. split; [|done].
      by apply IH.
Qed.

Lemma distinctLabels_buildSubtree d K :
  Forall distinctLabels (d :: descendants d) ->
  Forall distinctLabels (buildSubtree d K :: descendants (buildSubtree d K)).
Proof.
  revert d. induction K as [|k K IH]; intros d Hd; [done|].
  rewrite buildSubtree_cons. apply IH. by apply distinctLabels_addNode.
Qed.

(** [C6] Insertion is idempotent. Inserting a segment path a second time,
    with whatever key, gives the tree of the first insertion: no node is
    added. Running the loop over the same keys a second time changes
    nothing, and so [resetSubtree] followed by [buildSubtree] done twice in
    a row gives the very tree of doing it once. In a tree built after
    [resetSubtree] no two children of a node carry the same label. *)
Theorem buildSubtree_idempotent :
  (forall (d : Node) (keys : list string) (k k' rn rn' : string),
     addNode keys k' rn' (addNode keys k rn d) = addNode keys k rn d) /\
  (forall (d : Node) (K : list string),
     buildSubtree (buildSubtree d K) K = buildSubtree d K) /\
  (forall (d : Node) (K : list string),
     buildSubtree (resetSubtree (buildSubtree (resetSubtree d) K)) K
     = buildSubtree (resetSubtree d) K) /\
  (forall (d : Node) (K : list string) (n : Node),
     n ∈ buildSubtree (resetSubtree d) K
           :: descendants (buildSubtree (resetSubtree d) K) ->
     distinctLabels n).
Proof.
  split_and!.
  - intros d keys k k' rn rn'. apply addNode_hasPath.
    by rewrite hasPath_addNode, isPrefix_refl, orb_true_r.
  - intros d K. apply buildSubtree_absorb. intros k Hk.
    apply (hasPath_buildSubtree_prefix _ _ k); [done | apply isPrefix_refl].
  - intros d K. by rewrite resetSubtree_buildSubtree.
  - intros d K. apply Forall_forall, distinctLabels_buildSubtree.
    apply Forall_cons. split; [constructor | constructor].
Qed.

(** ** What the nodes of a built tree look like *)

Lemma addNode_children_nonempty keys k rn d :
  keys <> [] -> children (addNode keys k rn d) <> [].
Proof.
  destruct keys as [|k0 rest]; [done|]. intros _.
  destruct (addNode_view k0 rest k rn d) as [_ _ ->| l1 l2 c _ _ _ _ ->].
  - by destruct (children d).
  - by destruct l1.
Qed.

Lemma isProperPrefix_cons s p rest :
  isProperPrefix (s :: p) (s :: rest) = isProperPrefix p rest.
Proof. unfold isProperPrefix. cbn. by rewrite String.eqb_refl. Qed.

Lemma isProperPrefix_singleton s t rest :
  isProperPrefix [s] (s :: t :: rest) = true.
Proof. unfold isProperPrefix. cbn. by rewrite String.eqb_refl. Qed.

Lemma findPath_cons s p d :
  findPath (s :: p) d = (c ← child s d; findPath p c).
Proof. done. Qed.

Lemma findPath_no_children p d n :
  children d = [] -> findPath p d = Some n -> p = [] /\ n = d.
Proof.
  intros Hd. destruct p as [|s p].
  - by intros [= ->].
  - by rewrite findPath_cons, child_no_children.
Qed.

Section NodesOfAddNode.
Variables (Q R : Node -> Prop) (k rn : string).

Hypothesis Q_update : forall n cs,
  Q n -> R n -> cs <> [] -> Q (setChildren n cs).
Hypothesis Q_file : forall s, Q (newNode s k fileIcon rn).
Hypothesis Q_dir : forall s cs,
  cs <> [] -> Q (setChildren (newNode s k dirIcon rn) cs).

(** A property of all nodes of a tree survives an insertion when it
    holds of the nodes created and survives the gain of children by the
    nodes on the way, of which [R] is known. *)
Lemma Forall_descendants_addNode keys d :
  (forall p n, p <> [] -> isProperPrefix p keys = true ->
               findPath p d = Some n -> R n) ->
  Forall Q (descendants d) ->
  Forall Q (descendants (addNode keys k rn d)).
Proof.
  revert d. induction keys as [|k0 rest IH]; intros d HR HQ; [done|].
  rewrite descendants_unfold in HQ. rewrite descendants_unfold.
  destruct (addNode_view k0 rest k rn d)
    as [_ _ ->| l1 l2 c Hd _ _ Hc ->].
  - rewrite bind_app. apply Forall_app. split; [done|].
    rewrite bind_cons. cbn [mbind list_bind]. rewrite app_nil_r.
    apply Forall_cons. split.
    + destruct rest as [|t rest]; [apply Q_file|].
      rewrite addNode_fields. apply Q_dir.
      by apply addNode_children_nonempty.
    + apply IH.
      * intros p n Hp _ Hn.
        by apply findPath_no_children in Hn as [? _].
      * by rewrite descendants_no_children.
  - rewrite Hd, bind_app, bind_cons in HQ.
    apply Forall_app in HQ as [HQ1 HQ2].
    apply Forall_app in HQ2 as [HQc HQ2].
    apply Forall_cons in HQc as [HQc HQdc].
    rewrite bind_app, bind_cons.
    apply Forall_app. split; [done|]. apply Forall_app. split; [|done].
    apply Forall_cons. split.
    + destruct rest as [|t rest]; [done|].
      rewrite addNode_fields. apply Q_update; [done| |].
      * apply (HR [k0]); [done | apply isProperPrefix_singleton |].
        by rewrite findPath_cons, Hc.
      * by apply addNode_children_nonempty.
    + apply IH; [|done].
      intros p n Hp Hpre Hn. apply (HR (k0 :: p)); [done | |].
      * by rewrite isProperPrefix_cons.
      * by rewrite findPath_cons, Hc.
Qed.
End NodesOfAddNode.

Lemma builtShape_mono K K' rn n :
  K ⊆ K' -> builtShape K rn n -> builtShape K' rn n.
Proof. intros HK (? & ? & ? & ?). split_and!; try done. by apply HK. Qed.

Lemma fileIcon_ne_dirIcon : fileIcon <> dirIcon.
Proof. done. Qed.

(** Every node of a built tree has the shape [builtShape]. *)
Lemma builtShape_buildSubtree d K :
  children d = [] ->
  Forall (builtShape K (name d)) (descendants (buildSubtree d K)).
Proof.
  intros Hd. induction K as [|k K IH] using rev_ind.
  - cbn. by rewrite descendants_no_children.
  - rewrite buildSubtree_snoc. unfold insertKey. rewrite buildSubtree_name.
    apply (Forall_descendants_addNode _ (fun _ => True)).
    + intros n cs (Hk & Hrn & Hc & Hs) _ Hcs. split_and!; try done.
      destruct Hs as [Hs|[Hs _]]; [by left | by right].
    + intros s. split_and!; try done; [set_solver | by left].
    + intros s cs Hcs. split_and!; try done; [set_solver | by right].
    + done.
    + eapply Forall_impl; [exact IH|]. intros n.
      apply builtShape_mono. set_solver.
Qed.

(** [C10] Inserting a key whose segment path is a proper prefix of the
    segment path of a key inserted before leaves the tree as it is: no
    node is created and no node is updated, whatever the tree was before
    and whatever was inserted in between. When the tree was built from a
    node without children and the shorter key was not inserted earlier, no
    node carries it: the key is not in the subtree. *)
Theorem insertKey_proper_prefix_unchanged
    (d : Node) (K : list string) (k k' : string) :
  k ∈ K ->
  isProperPrefix (segments k') (segments k) = true ->
  insertKey (buildSubtree d K) k' = buildSubtree d K /\
  (children d = [] -> k' ∉ K ->
   forall n, n ∈ descendants (insertKey (buildSubtree d K) k') ->
             key n <> k').
Proof.
  intros Hk [Hpre _]%andb_prop.
  assert (Hsame : insertKey (buildSubtree d K) k' = buildSubtree d K).
  { unfold insertKey. apply addNode_hasPath.
    by apply (hasPath_buildSubtree_prefix _ _ k). }
  split; [done|]. rewrite Hsame. intros Hd Hk' n Hn Heq.
  pose proof (builtShape_buildSubtree d K Hd) as Hshape.
  rewrite Forall_forall in Hshape. destruct (Hshape _ Hn) as (Hin & _).
  by rewrite Heq in Hin.
Qed.

Lemma insertKey_proper_prefix_unchanged_witness :
  let d := newNode "etcd1" "" unconnectedIcon "" in
  "/a/b" ∈ ["/a/b"; "/c"] /\
  isProperPrefix (segments "/a") (segments "/a/b") = true /\
  insertKey (buildSubtree d ["/a/b"; "/c"]) "/a"
  = buildSubtree d ["/a/b"; "/c"].
Proof.
  cbn zeta. split; [apply list_elem_of_here|]. split; [reflexivity|].
  apply (insertKey_proper_prefix_unchanged _ _ "/a/b");
    [apply list_elem_of_here | reflexivity].
Defined.

(** Where the Leaf nodes are: an insertion puts a Leaf nowhere but at the
    end of the inserted path. *)
Lemma findPath_addNode_leaf p keys k rn d n :
  findPath p (addNode keys k rn d) = Some n -> isLeaf n ->
  p = keys \/ exists n', findPath p d = Some n' /\ isLeaf n'.
Proof.
  revert p d n. induction keys as [|k0 rest IH]; intros p d n Hn Hleaf.
  - right. by exists n.
  - destruct p as [|s p].
    + right. exists d. split; [done|].
      assert (n = addNode (k0 :: rest) k rn d) as ->
        by (cbn [findPath] in Hn; congruence).
      unfold isLeaf in *. by rewrite addNode_icon in Hleaf.
    + rewrite findPath_cons in Hn. destruct (decide (s = k0)) as [->|Hs].
      * rewrite child_addNode_eq in Hn. cbn [mbind option_bind] in Hn.
        destruct (IH _ _ _ Hn Hleaf) as [->|(n' & Hn' & Hleaf')]; [by left|].
        destruct (child k0 d) as [c|] eqn:Hc; cbn [default] in Hn'.
        -- right. exists n'. by rewrite findPath_cons, Hc.
        -- apply findPath_no_children in Hn' as [-> ->]; [|done].
           left. f_equal. unfold isLeaf in Hleaf'. cbn in Hleaf'.
           by destruct rest.
      * rewrite child_addNode_ne in Hn by done.
        right. exists n. by rewrite findPath_cons.
Qed.

Lemma findPath_buildSubtree_leaf p d K n :
  findPath p (buildSubtree d K) = Some n -> isLeaf n ->
  (exists k, k ∈ K /\ p = segments k) \/
  (exists n', findPath p d = Some n' /\ isLeaf n').
Proof.
  revert d n. induction K as [|k K IH]; intros d n Hn Hleaf.
  - right. by exists n.
  - rewrite buildSubtree_cons in Hn.
    destruct (IH _ _ Hn Hleaf) as [(k' & Hk' & ->)|(n' & Hn' & Hleaf')].
    + left. exists k'. split; [by right | done].
    + destruct (findPath_addNode_leaf _ _ _ _ _ _ Hn' Hleaf')
        as [->|?]; [|by right].
      left. exists k. split; [by left | done].
Qed.

(** When no key's path is a prefix of another's, no Leaf gets children. *)
Lemma leafChildless_buildSubtree d K :
  children d = [] -> prefixFree K = true ->
  Forall leafChildless (descendants (buildSubtree d K)).
Proof.
  intros Hd. induction K as [|k K IH] using rev_ind; intros HK.
  - cbn. by rewrite descendants_no_children.
  - rewrite prefixFree_snoc in HK. apply andb_prop in HK as [HK Hk].
    rewrite buildSubtree_snoc. unfold insertKey.
    apply (Forall_descendants_addNode _ (fun n => ~ isLeaf n)).
    + intros n cs _ Hn _ Hleaf. by destruct Hn.
    + by intros s _.
    + by intros s cs _ Hleaf.
    + intros p n Hp [Hpre Hlen]%andb_prop Hn Hleaf.
      destruct (findPath_buildSubtree_leaf _ _ _ _ Hn Hleaf)
        as [(k' & Hk' & ->)|(n' & Hn' & _)].
      * pose proof (forallb_elem_of _ _ _ Hk Hk') as Hinc.
        unfold incomparable in Hinc. rewrite Hpre in Hinc.
        by rewrite andb_false_r in Hinc.
      * by apply findPath_no_children in Hn' as [? _].
    + by apply IH.
Qed.

(** ** Which key a node carries *)

(** Induction on a tree: from the children to their parent. *)
Lemma Node_children_ind (P : Node -> Prop) :
  (forall d, Forall P (children d) -> P d) -> forall d, P d.
Proof.
  intros H. fix IH 1. intros [nm k ic cs rn co]. apply H. cbn [children].
  induction cs as [|c cs IHcs]; constructor; [apply IH | apply IHcs].
Qed.

Lemma lastNamed_not_named (nm : string) (cs : list Node) :
  nm ∉ name <$> cs -> lastNamed nm cs = None.
Proof.
  induction cs as [|c cs IH]; [done|].
  rewrite fmap_cons, not_elem_of_cons. intros [Hc Hcs]. cbn [lastNamed].
  rewrite IH by done. apply not_eq_sym, String.eqb_neq in Hc. by rewrite Hc.
Qed.

Lemma lastNamed_NoDup (cs : list Node) (c : Node) :
  NoDup (name <$> cs) -> c ∈ cs -> lastNamed (name c) cs = Some c.
Proof.
  induction cs as [|c' cs IH]; [by intros _ ?%elem_of_nil|].
  rewrite fmap_cons. intros [Hc' Hcs]%NoDup_cons Hin. cbn [lastNamed].
  apply elem_of_cons in Hin as [->|Hin].
  - assert (Hnone : lastNamed (name c') cs = None)
      by by apply lastNamed_not_named.
    by rewrite Hnone, String.eqb_refl.
  - by rewrite IH.
Qed.

(** In a tree whose siblings carry distinct labels every node is the one
    found at some path. *)
Lemma descendants_findPath (d n : Node) :
  Forall distinctLabels (d :: descendants d) ->
  n ∈ descendants d ->
  exists p, p <> [] /\ findPath p d = Some n.
Proof.
  revert n. induction d as [d IH] using Node_children_ind.
  intros n [Hroot Hdesc]%Forall_cons Hn.
  rewrite descendants_unfold in Hn, Hdesc.
  apply list_elem_of_bind in Hn as (c & Hn & Hc).
  assert (Hchild : child (name c) d = Some c)
    by (rewrite child_lastNamed; by apply lastNamed_NoDup).
  assert (Hsub : Forall distinctLabels (c :: descendants c)).
  { rewrite Forall_bind, Forall_forall in Hdesc. by apply Hdesc. }
  apply elem_of_cons in Hn as [->|Hn].
  - exists [name c]. split; [done|]. by rewrite findPath_cons, Hchild.
  - rewrite Forall_forall in IH.
    destruct (IH c Hc n Hsub Hn) as (p & Hp & Hfind).
    exists (name c :: p). split; [done|]. by rewrite findPath_cons, Hchild.
Qed.

(** The node an insertion creates at a prefix of its path that was not in
    the tree: it carries the inserted key, and it is a file exactly at the
    end of the path. *)
Lemma findPath_addNode_created p keys k rn d :
  p <> [] -> isPrefix p keys = true -> hasPath p d = false ->
  exists n, findPath p (addNode keys k rn d) = Some n /\
            key n = k /\ rootName n = rn /\
            (icon n = fileIcon <-> p = keys).
Proof.
  revert p d. induction keys as [|k0 rest IH]; intros p d Hp Hpre Hno.
  - destruct p; done.
  - destruct p as [|s p]; [done|]. cbn [isPrefix] in Hpre.
    apply andb_prop in Hpre as [Hs Hpre]. apply String.eqb_eq in Hs as ->.
    rewrite findPath_cons, child_addNode_eq. cbn [mbind option_bind].
    rewrite hasPath_cons in Hno.
    destruct p as [|t p].
    + destruct (child k0 d) as [c|]; [done|]. cbn [default findPath].
      eexists. split; [done|].
      rewrite addNode_key, addNode_rootName, addNode_icon. cbn.
      split_and!; [done | done |]. destruct rest; split; done.
    + destruct (IH (t :: p)
                  (default (newNode k0 k (iconFor rest) rn) (child k0 d)))
        as (n & Hn & Hk & Hr & Hi); [done | done | |].
      * destruct (child k0 d) as [c|]; cbn [default]; [done|].
        by rewrite hasPath_no_children.
      * exists n. split_and!; try done. rewrite Hi.
        split; [by intros -> | by intros [= ->]].
Qed.

Lemma findPath_addNode_shallow keys k rn d p n :
  findPath p d = Some n ->
  exists n', findPath p (addNode keys k rn d) = Some n' /\
             shallow n' = shallow n.
Proof.
  revert d p n. induction keys as [|k0 rest IH]; intros d p n Hn.
  - by exists n.
  - destruct p as [|s p].
    + injection Hn as <-. eexists. split; [done|]. apply shallow_addNode.
    + rewrite findPath_cons in Hn. rewrite findPath_cons.
      destruct (child s d) as [c|] eqn:Hc; [|done]. cbn in Hn.
      destruct (decide (s = k0)) as [->|Hs].
      * rewrite child_addNode_eq, Hc. cbn. by apply IH.
      * rewrite child_addNode_ne, Hc by done. cbn. by exists n.
Qed.

Lemma findPath_buildSubtree_shallow K d p n :
  findPath p d = Some n ->
  exists n', findPath p (buildSubtree d K) = Some n' /\
             shallow n' = shallow n.
Proof.
  revert d n. induction K as [|k K IH]; intros d n Hn; [by exists n|].
  rewrite buildSubtree_cons.
  destruct (findPath_addNode_shallow (segments k) k (name d) d p n Hn)
    as (n1 & Hn1 & Hs1).
  destruct (IH _ _ Hn1) as (n2 & Hn2 & Hs2).
  exists n2. split; [done | congruence].
Qed.

Lemma existsb_first {A} (f : A -> bool) (l : list A) :
  existsb f l = true ->
  exists l1 x l2, l = l1 ++ x :: l2 /\ f x = true /\
                  forall y, y ∈ l1 -> f y = false.
Proof.
  induction l as [|x l IH]; [done|]. cbn [existsb].
  destruct (f x) eqn:Hx.
  - intros _. exists [], x, l. split_and!; [done | done |].
    by intros y ?%elem_of_nil.
  - cbn. intros (l1 & y & l2 & -> & Hy & Hl1)%IH.
    exists (x :: l1), y, l2. split_and!; [done | done |].
    intros z [->|Hz]%elem_of_cons; [done | by apply Hl1].
Qed.

(** The key of the node at a path of a built tree: the first of the keys
    whose segment path runs through it; and the node is a Leaf exactly
    when the path is the whole segment path of that key. *)
Lemma findPath_buildSubtree_creator d K p n :
  children d = [] -> p <> [] ->
  findPath p (buildSubtree d K) = Some n ->
  createdBy K p (key n) /\ (isLeaf n <-> p = segments (key n)).
Proof.
  intros Hd Hp Hn.
  assert (Hhas : hasPath p (buildSubtree d K) = true)
    by (unfold hasPath; by rewrite Hn).
  rewrite hasPath_buildSubtree, hasPath_no_children in Hhas by done.
  destruct p as [|s p]; [done|]. cbn [orb] in Hhas.
  apply existsb_first in Hhas as (K1 & k & K2 & -> & Hk & HK1).
  assert (Hfresh : hasPath (s :: p) (buildSubtree d K1) = false).
  { rewrite hasPath_buildSubtree, hasPath_no_children by done. cbn [orb].
    apply not_true_is_false. intros (k' & Hk' & Hpre)%existsb_elem_of.
    by rewrite (HK1 k' Hk') in Hpre. }
  unfold buildSubtree in Hn. rewrite foldl_app in Hn. cbn [foldl] in Hn.
  fold (buildSubtree d K1) in Hn.
  fold (buildSubtree (insertKey (buildSubtree d K1) k) K2) in Hn.
  destruct (findPath_addNode_created (s :: p) (segments k) k
              (name (buildSubtree d K1)) (buildSubtree d K1) Hp Hk Hfresh)
    as (n0 & Hn0 & Hkey & _ & Hicon).
  destruct (findPath_buildSubtree_shallow K2 _ _ _ Hn0) as (n' & Hn' & Hs).
  unfold insertKey in Hn. rewrite Hn' in Hn. injection Hn as <-.
  assert (Hk' : key n' = k)
    by (change (key n') with (key (shallow n')); by rewrite Hs).
  assert (Hi' : icon n' = icon n0)
    by (change (icon n') with (icon (shallow n')); by rewrite Hs).
  rewrite Hk'. split.
  - by exists K1, K2.
  - unfold isLeaf. by rewrite Hi'.
Qed.

(** [C5] (amended) In every tree built from a node without children,
    every node below it, Directory or Leaf, carries a key: the first of
    the inserted keys whose segment path runs through the node, which is
    the key whose insertion created it; so its key is set unless that key
    is the empty string. It carries the name of the root as its root name.
    It is a Leaf or a Directory, a Leaf exactly when its path is the whole
    segment path of its key; a node without children is a Leaf and a
    Directory has children. When no key's segment path is a prefix of
    another's, a node is a Leaf iff it has no children and a Directory iff
    it has some. *)
Theorem buildSubtree_node_kinds (d : Node) (K : list string) (n : Node) :
  children d = [] ->
  n ∈ descendants (buildSubtree d K) ->
  key n ∈ K /\ rootName n = name d /\
  (isLeaf n \/ isDirectory n) /\
  (children n = [] -> isLeaf n) /\
  (isDirectory n -> children n <> []) /\
  (prefixFree K = true ->
     (isLeaf n <-> children n = []) /\
     (isDirectory n <-> children n <> [])) /\
  ("" ∉ K -> key n <> "") /\
  (exists p, p <> [] /\ findPath p (buildSubtree d K) = Some n /\
             createdBy K p (key n) /\
             (isLeaf n <-> p = segments (key n))).
Proof.
  intros Hd Hn.
  pose proof (builtShape_buildSubtree d K Hd) as Hshape.
  rewrite Forall_forall in Hshape.
  destruct (Hshape n Hn) as (Hk & Hrn & _ & Hs).
  assert (Hfd : isLeaf n -> isDirectory n -> False).
  { unfold isLeaf, isDirectory. intros -> Hx. by apply fileIcon_ne_dirIcon. }
  split_and!; try done.
  - destruct Hs as [?|[? _]]; [by left | by right].
  - intros Hc. by destruct Hs as [?|[_ ?]].
  - intros Hdir. destruct Hs as [?|[_ ?]]; [by destruct Hfd | done].
  - intros HK. pose proof (leafChildless_buildSubtree d K Hd HK) as Hlc.
    rewrite Forall_forall in Hlc. specialize (Hlc n Hn).
    split.
    + split; [exact Hlc | intros Hc; by destruct Hs as [?|[_ ?]]].
    + split.
      * intros Hdir. destruct Hs as [?|[_ ?]]; [by destruct Hfd | done].
      * intros Hc. destruct Hs as [Hl|[? _]]; [|done].
        exfalso. apply Hc. by apply Hlc.
  - intros Hempty Heq. by rewrite Heq in Hk.
  - assert (Hdl : Forall distinctLabels
                    (buildSubtree d K :: descendants (buildSubtree d K))).
    { apply distinctLabels_buildSubtree.
      rewrite descendants_no_children by done.
      apply Forall_singleton. unfold distinctLabels. rewrite Hd. constructor. }
    destruct (descendants_findPath _ n Hdl Hn) as (p & Hp & Hfind).
    exists p. split; [done|]. split; [done|].
    by apply (findPath_buildSubtree_creator d).
Qed.

Lemma buildSubtree_node_kinds_witness :
  let d := root1 in
  let K := ["/a/b/c"; "/a/b/d"; "/a/e"] in
  let n := newNode "e" "/a/e" fileIcon "etcd1" in
  children d = [] /\ n ∈ descendants (buildSubtree d K) /\
  key n ∈ K /\ isLeaf n /\ children n = [].
Proof.
  cbn zeta.
  assert (Hn : newNode "e" "/a/e" fileIcon "etcd1"
               ∈ descendants (buildSubtree root1 ["/a/b/c"; "/a/b/d"; "/a/e"])).
  { vm_compute. repeat constructor. }
  destruct (buildSubtree_node_kinds root1 ["/a/b/c"; "/a/b/d"; "/a/e"] _
              eq_refl Hn) as (Hk & _ & _ & Hleaf & _).
  split; [reflexivity|]. split; [exact Hn|]. split; [exact Hk|].
  split; [apply Hleaf|]; reflexivity.
Defined.

(** [C5] (as stated) The directory created for the key "/a/b" is neither
    a connection root nor without a key: it carries the key "/a/b". And a
    Leaf gets children when a longer key follows: after "/a" and "/a/b" the
    node "a" is a Leaf with the child "b". *)
Lemma directory_key_counterexample :
  let a := setChildren (newNode "a" "/a/b" dirIcon "etcd1")
             [newNode "b" "/a/b" fileIcon "etcd1"] in
  let a' := setChildren (newNode "a" "/a" fileIcon "etcd1")
              [newNode "b" "/a/b" fileIcon "etcd1"] in
  (a ∈ descendants (buildSubtree root1 ["/a/b"]) /\
   isDirectory a /\ key a <> "") /\
  (a' ∈ descendants (buildSubtree root1 ["/a"; "/a/b"]) /\
   isLeaf a' /\ key a' <> "" /\ children a' <> []).
Proof.
  cbn zeta. split_and!; try done; vm_compute; repeat constructor.
Qed.

(** ** The session operations *)

Lemma addNode_children_ext keys k rn d d' :
  children d = children d' ->
  children (addNode keys k rn d) = children (addNode keys k rn d').
Proof.
  intros Hd. destruct keys as [|k0 rest]; [done|].
  cbn [addNode]. rewrite Hd. by destruct (findChild k0 (children d')).
Qed.

(** The children the loop builds depend on the name and the children of
    its node only. *)
Lemma buildSubtree_children_ext K d d' :
  name d = name d' -> children d = children d' ->
  children (buildSubtree d K) = children (buildSubtree d' K).
Proof.
  revert d d'. induction K as [|k K IH]; intros d d' Hn Hc; [done|].
  rewrite !buildSubtree_cons. apply IH.
  - by rewrite !insertKey_name.
  - unfold insertKey. rewrite Hn. by apply addNode_children_ext.
Qed.

Lemma buildSubtree_setIcon d ic K :
  buildSubtree (setIcon d ic) K = setIcon (buildSubtree d K) ic.
Proof.
  rewrite (buildSubtree_fields (setIcon d ic)), (buildSubtree_fields d).
  by rewrite (buildSubtree_children_ext K (setIcon d ic) d).
Qed.

Lemma buildSubtree_setConnected d b K :
  buildSubtree (setConnected d b) K = setConnected (buildSubtree d K) b.
Proof.
  rewrite (buildSubtree_fields (setConnected d b)), (buildSubtree_fields d).
  by rewrite (buildSubtree_children_ext K (setConnected d b) d).
Qed.

Lemma resetSubtree_no_children d : children d = [] -> resetSubtree d = d.
Proof. intros Hd. destruct d. cbn in *. by subst. Qed.

(** The node [disconnect] leaves: no children, the unconnected icon, not
    connected. *)
Lemma disconnect_node node st :
  (disconnect node st).2 =
  setConnected (setIcon (resetSubtree node) unconnectedIcon) false.
Proof. done. Qed.

(** [disconnect] reads the configuration stored under [node.rootName]:
    when there is none, no handle is closed and none is cleared. *)
Lemma disconnect_no_config node st :
  etcdConfigs st !! rootName node = None ->
  etcdConfigs (disconnect node st).1 = etcdConfigs st /\
  closed (disconnect node st).1 = closed st.
Proof. unfold disconnect. cbn. by intros ->. Qed.

(** [search] without a stored client handle: nothing changes and nothing
    is shown. *)
Lemma search_no_client w q node st :
  (forall ec, etcdConfigs st !! name node = Some ec -> Client ec = None) ->
  search w q node st = (st, node).
Proof.
  intros Hec. unfold search.
  destruct (etcdConfigs st !! name node) as [ec|]; [|done].
  by rewrite (Hec ec).
Qed.


(** [C2] (amended) A [connect] that fails at the construction of the
    client or at the probe changes nothing but for the error box: the
    stored handle, the closed handles and the node are as before. A
    [connect] that fails at the first query leaves the node as it was: its
    children, icon and connected flag. A node that was not connected is
    connected afterwards only if construction, probe and query all
    succeeded. *)
Theorem connect_failure (w : World) (node : Node) (st : State)
    (ec : EtcdConfig) :
  etcdConfigs st !! name node = Some ec ->
  (clientNew w ec = None ->
     connect w node st = (msgBoxError "Connect failed." st, node)) /\
  (forall c, clientNew w ec = Some c ->
     clientStatus w c (Endpoint ec) = false ->
     connect w node st = (msgBoxError "Connect failed." st, node)) /\
  (forall c, clientNew w ec = Some c ->
     clientStatus w c (Endpoint ec) = true ->
     clientGet w c "/" = None ->
     (connect w node st).2 = node /\
     events (connect w node st).1
       = events st ++ [MsgBoxError "Connect failed."]) /\
  (connected node = false ->
   connected (connect w node st).2 = true ->
   exists c kvs, clientNew w ec = Some c /\
                 clientStatus w c (Endpoint ec) = true /\
                 clientGet w c "/" = Some kvs).
Proof.
  intros Hec. unfold connect. rewrite Hec. split_and!.
  - by intros ->.
  - by intros c -> ->.
  - intros c -> -> ->. by cbn.
  - intros Hnc.
    destruct (clientNew w ec) as [c|]; cbn; [|congruence].
    destruct (clientStatus w c (Endpoint ec)) eqn:Hs; cbn; [|congruence].
    destruct (clientGet w c "/") as [kvs|] eqn:Hq; cbn; [|congruence].
    intros _. by exists c, kvs.
Qed.

Lemma connect_failure_witness :
  etcdConfigs startState !! name root1 = Some etcd1 /\
  (connect (queryFails 7) root1 startState).2 = root1.
Proof.
  assert (Hec : etcdConfigs startState !! name root1 = Some etcd1)
    by reflexivity.
  split; [exact Hec|].
  destruct (connect_failure (queryFails 7) root1 startState etcd1 Hec)
    as (_ & _ & Hquery & _).
  apply (Hquery 7); reflexivity.
Defined.

(** [C2] (as stated) A [connect] whose first query fails has stored the
    probed handle in the configuration and has closed nothing. *)
Lemma connect_query_failure_counterexample :
  let st := (connect (queryFails 7) root1 startState).1 in
  clientGet (queryFails 7) 7 "/" = None /\
  (Client <$> etcdConfigs st !! "etcd1") = Some (Some 7) /\
  closed st = [].
Proof. cbn zeta. split_and!; reflexivity. Qed.

(** The children after a [connect] that got its listing: the loop has run
    on the node as it was, on top of the children it had. *)
Lemma connect_success_children w node st ec c kvs :
  etcdConfigs st !! name node = Some ec ->
  clientNew w ec = Some c ->
  clientStatus w c (Endpoint ec) = true ->
  clientGet w c "/" = Some kvs ->
  children (connect w node st).2 = children (buildSubtree node kvs).
Proof.
  intros Hec Hc Hs Hq. unfold connect. rewrite Hec, Hc, Hs, Hq. cbn.
  by destruct (_ && _).
Qed.

(** [C3] A [connect] whose listing succeeded but whose expansion failed
    leaves the children built and the node not connected. The next
    [connect] inserts the new listing among them: the child for the key
    that is gone from the store is still there, where a rebuild after
    [resetSubtree] has the new key only. *)
Theorem connect_keeps_stale_children :
  let c1 := connect (expandFails 7 ["/old"]) root1 startState in
  let c2 := connect (prefixStore 8 ["/new"]) c1.2 c1.1 in
  connected c1.2 = false /\
  name <$> children c1.2 = ["old"] /\
  connected c2.2 = true /\
  name <$> children c2.2 = ["old"; "new"] /\
  name <$> children (buildSubtree (resetSubtree c1.2) ["/new"]) = ["new"].
Proof. cbn zeta. split_and!; reflexivity. Qed.

(** [C4] The node of a configured store is created with an empty
    [rootName]. After a [connect] that stored the handle 7, [disconnect]
    clears the children and the connected flag, and looks for the
    configuration under the empty name: the handle is neither closed nor
    cleared. *)
Theorem disconnect_keeps_client :
  let c1 := connect (prefixStore 7 ["/a/b"; "/a/c"]) root1 startState in
  let d1 := disconnect c1.2 c1.1 in
  roots (newNodeTreeModel {["etcd1" := etcd1]})
    = [setChildren (newNode "All" "" menuIcon "") [root1]] /\
  connected c1.2 = true /\
  (Client <$> etcdConfigs c1.1 !! "etcd1") = Some (Some 7) /\
  children d1.2 = [] /\
  connected d1.2 = false /\
  (Client <$> etcdConfigs d1.1 !! "etcd1") = Some (Some 7) /\
  closed d1.1 = [].
Proof. cbn zeta. split_and!; reflexivity. Qed.

(** [C8] [search] on a root that was never connected returns the state
    and the node as they were: no error box is shown, nothing tells the
    caller. *)
Theorem search_unconnected_silent :
  Client etcd1 = None /\
  search (prefixStore 7 ["/a/b"]) "/a" root1 startState
    = (startState, root1) /\
  events startState = [].
Proof. split_and!; reflexivity. Qed.

Lemma prefix_empty (k : string) : String.prefix "" k = true.
Proof. by destruct k. Qed.

(** In a store all of whose keys start with "/", the empty prefix and the
    prefix "/" select the same keys. *)
Lemma prefixStore_full_listing h store c :
  Forall (fun k => String.prefix "/" k = true) store ->
  clientGet (prefixStore h store) c ""
  = clientGet (prefixStore h store) c "/".
Proof.
  intros Hstore. cbn. f_equal. apply filter_iff_in. intros k Hk.
  rewrite Forall_forall in Hstore. rewrite prefix_empty.
  split; [intros _; by apply Hstore | done].
Qed.

Lemma buildSubtree_connected d K :
  connected (buildSubtree d K) = connected d.
Proof. by rewrite buildSubtree_fields. Qed.

(** Rebuilding from the same keys the subtree of a node that was built
    from them gives the node back. *)
Lemma rebuild_same node kvs ic :
  children node = [] ->
  let n1 := setConnected (setIcon (buildSubtree node kvs) ic) true in
  setIcon (buildSubtree (resetSubtree n1) kvs) ic = n1.
Proof.
  intros Hch n1.
  replace (resetSubtree n1) with (setConnected (setIcon node ic) true).
  - by rewrite buildSubtree_setConnected, buildSubtree_setIcon.
  - rewrite <- (resetSubtree_no_children node Hch) at 1.
    rewrite <- (resetSubtree_buildSubtree node kvs). done.
Qed.

(** [C7] (amended) [search] with the empty prefix sends the empty prefix
    to the store, where [connect] sends "/". When the two queries return
    the same keys, the search gives back the very node [connect] built
    from an empty subtree, the same children and the connected icon, in
    every later state of the connected session: whatever children and
    icon the root has by then (after a filtered search, say), as long as
    it is the same connected root and the handle [connect] stored is the
    one stored. *)
Theorem search_empty_prefix (w : World) (node : Node) (st : State)
    (ec : EtcdConfig) (c : Handle)
    (node' : Node) (st' : State) (ec' : EtcdConfig) :
  etcdConfigs st !! name node = Some ec ->
  children node = [] ->
  connected node = false ->
  connected (connect w node st).2 = true ->
  clientNew w ec = Some c ->
  name node' = name node ->
  key node' = key node ->
  rootName node' = rootName node ->
  connected node' = true ->
  etcdConfigs st' !! name node = Some ec' ->
  Client ec' = Some c ->
  clientGet w c "" = clientGet w c "/" ->
  (search w "" node' st').2 = (connect w node st).2.
Proof.
  intros Hec Hch Hnc Hconn Hc Hname Hkey Hroot Hconn' Hec' Hc' Hq.
  revert Hconn. unfold connect. rewrite Hec, Hc.
  destruct (clientStatus w c (Endpoint ec)); cbn [negb]; [|cbn; congruence].
  destruct (clientGet w c "/") as [kvs|] eqn:Hkvs; [|cbn; congruence].
  cbn [refreshNodeIcon].
  set (n1 := setIcon (buildSubtree node kvs) connectedIcon).
  destruct (hasChildren n1 && negb (setExpanded w n1)).
  { cbn. rewrite buildSubtree_connected. congruence. }
  intros _. cbn [fst snd]. unfold search.
  rewrite Hname, Hec', Hc', Hq, String.eqb_refl. cbn [refreshNodeIcon].
  assert (Hsame : setIcon (buildSubtree (resetSubtree node') kvs) connectedIcon
                  = setConnected n1 true).
  { unfold n1. rewrite (buildSubtree_fields (resetSubtree node') kvs).
    rewrite (buildSubtree_fields node kvs).
    rewrite (buildSubtree_children_ext kvs (resetSubtree node') node)
      by done.
    destruct node', node. cbn in Hname, Hkey, Hroot, Hconn'. by subst. }
  by destruct (_ && _).
Qed.

Lemma search_empty_prefix_witness :
  let w := prefixStore 7 ["/a/b"; "/a/c"; "/d"] in
  let c1 := connect w root1 startState in
  let s1 := search w "/a" c1.2 c1.1 in
  etcdConfigs startState !! name root1 = Some etcd1 /\
  clientGet w 7 "" = clientGet w 7 "/" /\
  children s1.2 <> children c1.2 /\
  (search w "" s1.2 s1.1).2 = c1.2.
Proof.
  cbn zeta.
  assert (Hec : etcdConfigs startState !! name root1 = Some etcd1)
    by reflexivity.
  split; [exact Hec|]. split; [reflexivity|]. split; [discriminate|].
  apply (search_empty_prefix _ root1 startState etcd1 7 _ _
           (withClient etcd1 (Some 7)) Hec); reflexivity.
Defined.

(** [C7] (as stated) In a store that holds a key without a leading "/",
    [connect] lists the keys under "/" and [search] with the empty prefix
    lists them all: the trees differ. *)
Lemma search_empty_prefix_counterexample :
  let w := prefixStore 7 ["/b"; "a"] in
  let c1 := connect w root1 startState in
  connected c1.2 = true /\
  name <$> children c1.2 = ["b"] /\
  name <$> children (search w "" c1.2 c1.1).2 = ["b"; "a"].
Proof. cbn zeta. split_and!; reflexivity. Qed.

Lemma foldl_setTexts k vs st :
  etcdConfigs (foldl (fun st v => setTexts k v st) st vs) = etcdConfigs st /\
  closed (foldl (fun st v => setTexts k v st) st vs) = closed st.
Proof.
  revert st. induction vs as [|v vs IH]; intros st; [done|].
  cbn [foldl]. by destruct (IH (setTexts k v st)) as [-> ->].
Qed.

(** [C9] (amended) [connect] is not offered for a connected root: the
    guard of the click handler and of the Connect action is false, a left
    click on the root does not call [connect], and the node, the stored
    handles and the closed handles stay as they are. *)
Theorem connected_root_not_offered (w : World) (hasParent : bool)
    (node : Node) (st : State) :
  connected node = true ->
  connectOffered hasParent node = false /\
  (onLeftClick w hasParent node st).2 = node /\
  etcdConfigs (onLeftClick w hasParent node st).1 = etcdConfigs st /\
  closed (onLeftClick w hasParent node st).1 = closed st.
Proof.
  intros Hconn.
  assert (Hoff : connectOffered hasParent node = false).
  { unfold connectOffered. rewrite Hconn. by rewrite andb_false_r. }
  split; [done|]. unfold onLeftClick. rewrite Hoff.
  destruct (_ && _); [|done].
  destruct (etcdConfigs st !! rootName node) as [ec|]; [|done].
  destruct (Client ec) as [c|]; [|done].
  destruct (clientGetValue w c (key node)) as [vs|]; [|done].
  cbn [fst snd]. split; [done|]. apply foldl_setTexts.
Qed.

Lemma connected_root_not_offered_witness :
  let w := prefixStore 7 ["/a"] in
  let c1 := connect w root1 startState in
  connected c1.2 = true /\
  connectOffered true c1.2 = false /\
  (onLeftClick w true c1.2 c1.1).2 = c1.2.
Proof.
  cbn zeta.
  assert (Hconn : connected (connect (prefixStore 7 ["/a"]) root1 startState).2
                  = true) by reflexivity.
  split; [exact Hconn|].
  destruct (connected_root_not_offered (prefixStore 7 ["/a"]) true _
              (connect (prefixStore 7 ["/a"]) root1 startState).1 Hconn)
    as (Hoff & Hnode & _).
  split; [exact Hoff | exact Hnode].
Defined.

(** [C9] (as stated) [connect] on a connected root is not rejected: it
    runs again, stores the new handle over the old one, which it does not
    close, inserts the new listing and shows no error. *)
Lemma connect_connected_counterexample :
  let c1 := connect (prefixStore 7 ["/a"]) root1 startState in
  let c2 := connect (prefixStore 8 ["/b"]) c1.2 c1.1 in
  connected c1.2 = true /\
  (Client <$> etcdConfigs c1.1 !! "etcd1") = Some (Some 7) /\
  (Client <$> etcdConfigs c2.1 !! "etcd1") = Some (Some 8) /\
  closed c2.1 = [] /\
  name <$> children c2.2 = ["a"; "b"] /\
  events c2.1 = [ItemChanged "etcd1"; ItemsReset "etcd1";
                 ItemChanged "etcd1"; ItemsReset "etcd1"].
Proof. cbn zeta. split_and!; reflexivity. Qed.

(** * Further properties of the tree *)

(** [X1] The paths of a tree after the loop: the paths it had and the prefixes
    of the segment paths of the keys. *)
Theorem buildSubtree_paths (d : Node) (K : list string) (p : list string) :
  hasPath p (buildSubtree d K) =
  hasPath p d || existsb (fun k => isPrefix p (segments k)) K.
Proof. apply hasPath_buildSubtree. Qed.

Lemma findPath_addNode_new keys k rn d :
  keys <> [] -> hasPath keys d = false ->
  exists n, findPath keys (addNode keys k rn d) = Some n /\
            shallow n = newNode (default "" (last keys)) k fileIcon rn /\
            children n = [].
Proof.
  revert d. induction keys as [|k0 rest IH]; intros d Hne Hp; [done|].
  rewrite findPath_cons, child_addNode_eq. cbn [mbind option_bind].
  rewrite hasPath_cons in Hp.
  destruct rest as [|k1 rest].
  - destruct (child k0 d) as [c|]; [done|]. cbn.
    by exists (newNode k0 k fileIcon rn).
  - change (last (k0 :: k1 :: rest)) with (last (k1 :: rest)).
    apply IH; [done|]. destruct (child k0 d) as [c|]; cbn [default]; [done|].
    by rewrite hasPath_no_children.
Qed.

(** [X2] Insert, then look up: a key whose segment path was not in the tree is
    found at the end of that path as a Leaf without children that carries
    the key and the name of the root. *)
Theorem insertKey_lookup (d : Node) (k : string) :
  hasPath (segments k) d = false ->
  exists n, findPath (segments k) (insertKey d k) = Some n /\
            key n = k /\ isLeaf n /\ rootName n = name d /\
            children n = [] /\ connected n = false.
Proof.
  intros Hp.
  destruct (findPath_addNode_new (segments k) k (name d) d
              (segments_nonempty k) Hp) as (n & Hn & Hs & Hc).
  exists n. split; [done|].
  assert (Hk : key n = key (shallow n)) by done.
  assert (Hi : icon n = icon (shallow n)) by done.
  assert (Hr : rootName n = rootName (shallow n)) by done.
  assert (Hco : connected n = connected (shallow n)) by done.
  rewrite Hs in Hk, Hi, Hr, Hco. by split_and!.
Qed.

Lemma insertKey_lookup_witness :
  hasPath (segments "/a/e") (buildSubtree root1 ["/a/b/c"]) = false /\
  exists n, findPath (segments "/a/e")
              (insertKey (buildSubtree root1 ["/a/b/c"]) "/a/e") = Some n /\
            key n = "/a/e".
Proof.
  split; [reflexivity|].
  destruct (insertKey_lookup (buildSubtree root1 ["/a/b/c"]) "/a/e" eq_refl)
    as (n & Hn & Hk & _).
  by exists n.
Defined.

(** [X3] An insertion writes to no node that is there: the node at a path of
    the tree is at that path afterwards with its label, key, icon, root
    name and connected flag; only its children can have grown. *)
Theorem addNode_keeps_nodes (keys : list string) (k rn : string)
    (d : Node) (p : list string) (n : Node) :
  findPath p d = Some n ->
  exists n', findPath p (addNode keys k rn d) = Some n' /\
             shallow n' = shallow n.
Proof.
  revert d p n. induction keys as [|k0 rest IH]; intros d p n Hn.
  - by exists n.
  - destruct p as [|s p].
    + injection Hn as <-. eexists. split; [done|]. apply shallow_addNode.
    + rewrite findPath_cons in Hn. rewrite findPath_cons.
      destruct (child s d) as [c|] eqn:Hc; [|done]. cbn in Hn.
      destruct (decide (s = k0)) as [->|Hs].
      * rewrite child_addNode_eq, Hc. cbn. by apply IH.
      * rewrite child_addNode_ne, Hc by done. cbn. by exists n.
Qed.

Lemma addNode_keeps_nodes_witness :
  let d := buildSubtree root1 ["/a/b"] in
  exists n n', findPath ["a"] d = Some n /\
               findPath ["a"] (addNode ["a"; "c"] "/a/c" "etcd1" d) = Some n' /\
               key n' = "/a/b" /\ shallow n' = shallow n.
Proof.
  cbn zeta.
  assert (Hn : findPath ["a"] (buildSubtree root1 ["/a/b"])
               = Some (setChildren (newNode "a" "/a/b" dirIcon "etcd1")
                         [newNode "b" "/a/b" fileIcon "etcd1"]))
    by reflexivity.
  destruct (addNode_keeps_nodes ["a"; "c"] "/a/c" "etcd1" _ _ _ Hn)
    as (n' & Hn' & Hs).
  eexists _, n'. split; [exact Hn|]. split; [exact Hn'|]. split; [|exact Hs].
  change (key n') with (key (shallow n')). by rewrite Hs.
Defined.

(** [X4] What lies off the inserted path is left alone, subtree and all: the
    lookup of a path that is no prefix of the inserted one gives what it
    gave before. *)
Theorem addNode_off_path (keys : list string) (k rn : string)
    (d : Node) (p : list string) :
  isPrefix p keys = false ->
  findPath p (addNode keys k rn d) = findPath p d.
Proof.
  revert d p. induction keys as [|k0 rest IH]; intros d p Hp; [done|].
  destruct p as [|s p]; [done|]. cbn [isPrefix] in Hp.
  rewrite !findPath_cons. destruct (decide (s = k0)) as [->|Hs].
  - rewrite String.eqb_refl in Hp. cbn [andb] in Hp.
    rewrite child_addNode_eq. cbn [mbind option_bind]. rewrite IH by done.
    destruct (child k0 d) as [c|]; [done|]. cbn.
    destruct p as [|t p]; [done|].
    by rewrite findPath_cons, child_no_children.
  - by rewrite child_addNode_ne.
Qed.

Lemma addNode_off_path_witness :
  let d := buildSubtree root1 ["/a/b"; "/c"] in
  isPrefix ["a"; "b"] ["a"; "x"] = false /\
  findPath ["a"; "b"] (addNode ["a"; "x"] "/a/x" "etcd1" d)
  = findPath ["a"; "b"] d.
Proof.
  cbn zeta. split; [reflexivity|]. by apply addNode_off_path.
Defined.

Lemma lastNamed_None_iff (nm : string) (cs : list Node) :
  lastNamed nm cs = None <-> nm ∉ name <$> cs.
Proof.
  split; [apply lastNamed_None_names|].
  induction cs as [|c cs IH]; [done|].
  rewrite fmap_cons, not_elem_of_cons. intros [Hc Hcs]. cbn [lastNamed].
  rewrite IH by done. apply not_eq_sym, String.eqb_neq in Hc. by rewrite Hc.
Qed.

Lemma names_addNode k0 rest k rn d :
  name <$> children (addNode (k0 :: rest) k rn d)
  = appendNew (name <$> children d) k0.
Proof.
  unfold appendNew.
  destruct (addNode_view k0 rest k rn d) as [_ Hc ->| l1 l2 c Hd Hn _ _ ->].
  - rewrite child_lastNamed in Hc. apply lastNamed_None_iff in Hc.
    rewrite decide_False by done.
    by rewrite fmap_app, list_fmap_singleton, addNode_name.
  - rewrite Hd, decide_True.
    + by rewrite !fmap_app, !fmap_cons, addNode_name.
    + rewrite fmap_app, fmap_cons, Hn. set_solver.
Qed.

(** [X5] The children of the target after the loop, in the order shown: the
    labels it had, then the first segments of the keys, each where it was
    first seen. The view shows as many children. *)
Theorem buildSubtree_children_order (d : Node) (K : list string) :
  Text <$> children (buildSubtree d K)
  = foldl appendNew (Text <$> children d) (firstSegment <$> K) /\
  ChildCount (buildSubtree d K)
  = length (foldl appendNew (Text <$> children d) (firstSegment <$> K)).
Proof.
  assert (Hnames : Text <$> children (buildSubtree d K)
                   = foldl appendNew (Text <$> children d) (firstSegment <$> K)).
  { revert d. induction K as [|k K IH]; intros d; [done|].
    rewrite buildSubtree_cons, IH, fmap_cons. cbn [foldl]. f_equal.
    unfold insertKey, firstSegment.
    pose proof (segments_nonempty k) as Hk.
    destruct (segments k) as [|s rest]; [done|]. apply names_addNode. }
  split; [done|]. unfold ChildCount. by rewrite <- Hnames, length_fmap.
Qed.

Example children_order_example :
  Text <$> children (buildSubtree root1 ["/b/x"; "/a/y"; "/b/z"; "/c"])
  = ["b"; "a"; "c"].
Proof. reflexivity. Qed.

Lemma Join_Split s sep : Join (Split s sep) sep = s.
Proof.
  induction s as [|c s IH]; [done|]. cbn [Split].
  pose proof (Split_nonempty s sep) as Hne.
  destruct (Ascii.eqb c sep) eqn:Hc.
  - apply Ascii.eqb_eq in Hc as ->. cbn [Join].
    destruct (Split s sep) as [|seg segs]; [done|]. by rewrite IH.
  - destruct (Split s sep) as [|seg segs]; [done|].
    cbn [Join] in *. destruct segs as [|seg' segs]; by rewrite <- IH.
Qed.

Lemma TrimPrefix_slash k :
  (String.prefix "/" k = true -> String slash (TrimPrefix k "/") = k) /\
  (String.prefix "/" k = false -> TrimPrefix k "/" = k).
Proof.
  destruct k as [|c k]; [split; [discriminate | reflexivity]|].
  unfold TrimPrefix. cbn [String.prefix stripPrefix].
  destruct (ascii_dec "/" c) as [<-|Hne].
  - cbn. split; [done | by destruct k].
  - apply Ascii.eqb_neq in Hne. rewrite Hne. by split.
Qed.

(** [X6] The labels on the way to a key spell the key: joined by "/" they give
    the key back, after its leading "/" when it has one. *)
Theorem segments_spell_key (k : string) :
  (String.prefix "/" k = true ->
     String slash (Join (segments k) slash) = k) /\
  (String.prefix "/" k = false -> Join (segments k) slash = k).
Proof.
  unfold segments. rewrite Join_Split.
  destruct (TrimPrefix_slash k) as [H1 H2]. by split.
Qed.

(** [X7] Below "/" no two keys share a segment path: keys that both start with
    "/" and have the same segments are the same key. *)
Theorem segments_inj (k k' : string) :
  String.prefix "/" k = true -> String.prefix "/" k' = true ->
  segments k = segments k' -> k = k'.
Proof.
  intros Hk Hk' Hs.
  destruct (TrimPrefix_slash k) as [H1 _]. specialize (H1 Hk).
  destruct (TrimPrefix_slash k') as [H2 _]. specialize (H2 Hk').
  rewrite <- H1, <- H2. f_equal. unfold segments in Hs.
  rewrite <- (Join_Split (TrimPrefix k "/") slash), Hs. apply Join_Split.
Qed.

Lemma segments_inj_witness :
  String.prefix "/" "/a/b" = true /\ segments "/a/b" = ["a"; "b"] /\
  (forall k', String.prefix "/" k' = true ->
              segments k' = ["a"; "b"] -> "/a/b" = k').
Proof.
  split; [reflexivity|]. split; [reflexivity|].
  intros k' Hk' Hs. apply segments_inj; [reflexivity | exact Hk' |].
  by rewrite Hs.
Defined.

(** Without the leading "/" they can: "a" and "/a" give the same path. *)
Example segments_collision : segments "a" = segments "/a" /\ "a" <> "/a".
Proof. split; [reflexivity | discriminate]. Qed.

Lemma length_missing keys d : length (missing keys d) <= length keys.
Proof.
  revert d. induction keys as [|s rest IH]; intros d; [done|].
  cbn [missing]. destruct (child s d) as [c|]; [|done].
  specialize (IH c). cbn [length]. lia.
Qed.

Lemma length_chain k rn l : length (chain k rn l) = length l.
Proof. induction l as [|s rest IH]; [done|]. cbn. by rewrite IH. Qed.

Lemma length_descendants_addNode keys k rn d :
  length (descendants (addNode keys k rn d))
  = length (descendants d) + length (missing keys d).
Proof.
  rewrite <- (length_fmap shallow), shallow_descendants_addNode.
  by rewrite length_app, length_fmap, length_chain.
Qed.

Lemma leafCount_addNode keys k rn d :
  leafCount (addNode keys k rn d) <= leafCount d + 1.
Proof.
  unfold leafCount. rewrite <- !(length_fmap key).
  fold (leafKeys (addNode keys k rn d)). fold (leafKeys d).
  rewrite leafKeys_addNode, length_app.
  destruct (missing keys d); cbn; lia.
Qed.

(** [X8] The loop creates no more than it is given: at most one Leaf for each
    key and at most one node for each segment of each key. *)
Theorem buildSubtree_bounds (d : Node) (K : list string) :
  leafCount (buildSubtree d K) <= leafCount d + length K /\
  length (descendants (buildSubtree d K))
  <= length (descendants d) + sum_list (length <$> (segments <$> K)).
Proof.
  revert d. induction K as [|k K IH]; intros d.
  - change (buildSubtree d []) with d. split; lia.
  - rewrite buildSubtree_cons. destruct (IH (insertKey d k)) as [IHl IHn].
    unfold insertKey in *.
    pose proof (leafCount_addNode (segments k) k (name d) d) as Hl.
    pose proof (length_descendants_addNode (segments k) k (name d) d) as Hn.
    pose proof (length_missing (segments k) d) as Hm.
    change (sum_list (length <$> (segments <$> k :: K)))
      with (length (segments k) + sum_list (length <$> (segments <$> K))).
    cbn [length]. clear IH. split; lia.
Qed.

Lemma existsb_Permutation {A} (f : A -> bool) (l l' : list A) :
  l ≡ₚ l' -> existsb f l = existsb f l'.
Proof.
  intros Hl. destruct (existsb f l') eqn:Hl'.
  - apply existsb_elem_of. apply existsb_elem_of in Hl' as (x & Hx & Hf).
    exists x. by rewrite Hl.
  - apply not_true_is_false. intros (x & Hx & Hf)%existsb_elem_of.
    apply not_true_iff_false in Hl'. apply Hl'. apply existsb_elem_of.
    exists x. by rewrite <- Hl.
Qed.

(** [X9] Which paths the tree has does not depend on the order of the keys;
    which key and which icon a node carries does. *)
Theorem buildSubtree_paths_any_order (d : Node) (K K' : list string)
    (p : list string) :
  K ≡ₚ K' ->
  hasPath p (buildSubtree d K) = hasPath p (buildSubtree d K').
Proof.
  intros HK. rewrite !hasPath_buildSubtree. f_equal.
  by apply existsb_Permutation.
Qed.

Lemma buildSubtree_paths_any_order_witness :
  ["/a/b"; "/a"] ≡ₚ ["/a"; "/a/b"] /\
  hasPath ["a"; "b"] (buildSubtree root1 ["/a/b"; "/a"])
  = hasPath ["a"; "b"] (buildSubtree root1 ["/a"; "/a/b"]) /\
  buildSubtree root1 ["/a/b"; "/a"] <> buildSubtree root1 ["/a"; "/a/b"].
Proof.
  assert (HK : ["/a/b"; "/a"] ≡ₚ ["/a"; "/a/b"]) by apply Permutation_swap.
  split; [exact HK|]. split.
  - by apply buildSubtree_paths_any_order.
  - vm_compute. discriminate.
Defined.

(** * Further properties of the session operations *)

Lemma fmap_setClient (m : gmap string EtcdConfig) nm ec c :
  m !! nm = Some ec ->
  (fun e => withClient e None) <$> <[nm := withClient ec c]> m
  = (fun e => withClient e None) <$> m.
Proof.
  intros Hec. rewrite fmap_insert. apply insert_id.
  by rewrite lookup_fmap, Hec.
Qed.

(** [X10] [connect] calls [Close] on no handle, whatever happens. *)
Theorem connect_never_closes (w : World) (node : Node) (st : State) :
  closed (connect w node st).1 = closed st.
Proof.
  unfold connect.
  destruct (etcdConfigs st !! name node) as [ec|]; [|done].
  destruct (clientNew w ec) as [c|]; [|done].
  destruct (clientStatus w c (Endpoint ec)); [|done]. cbn [negb].
  destruct (clientGet w c "/") as [kvs|]; [|done].
  cbn [refreshNodeIcon]. by destruct (_ && _).
Qed.

(** [X11] No session operation adds, removes or renames a configuration, or
    edits its endpoint or credentials: apart from the client handles the
    map is what it was. *)
Theorem session_keeps_registry (w : World) (q : string) (node : Node)
    (st : State) :
  let clear := fmap (M := gmap string) (fun e => withClient e None) in
  clear (etcdConfigs (connect w node st).1) = clear (etcdConfigs st) /\
  clear (etcdConfigs (search w q node st).1) = clear (etcdConfigs st) /\
  clear (etcdConfigs (disconnect node st).1) = clear (etcdConfigs st).
Proof.
  cbn zeta. split_and!.
  - unfold connect.
    destruct (etcdConfigs st !! name node) as [ec|] eqn:Hec; [|done].
    destruct (clientNew w ec) as [c|]; [|done].
    destruct (clientStatus w c (Endpoint ec)); [|done]. cbn [negb].
    destruct (clientGet w c "/") as [kvs|];
      [cbn [refreshNodeIcon]; destruct (_ && _)|];
      cbn; by apply fmap_setClient.
  - unfold search.
    destruct (etcdConfigs st !! name node) as [ec|]; [|done].
    destruct (Client ec) as [c|]; [|done].
    destruct (clientGet w c q) as [kvs|]; [|done].
    destruct (String.eqb q ""); cbn [refreshNodeIcon]; by destruct (_ && _).
  - unfold disconnect. cbn [rootName resetSubtree setChildren].
    destruct (etcdConfigs st !! rootName node) as [ec|] eqn:Hec; [|done].
    destruct (Client ec) as [c|]; [|done].
    cbn. by apply fmap_setClient.
Qed.

(** [X12] [search] leaves the session as it is: the configurations with their
    handles, the closed handles, and of the node its connected flag, name,
    key and root name. Only the children and the icon can change. *)
Theorem search_keeps_session (w : World) (q : string) (node : Node)
    (st : State) :
  etcdConfigs (search w q node st).1 = etcdConfigs st /\
  closed (search w q node st).1 = closed st /\
  connected (search w q node st).2 = connected node /\
  name (search w q node st).2 = name node /\
  key (search w q node st).2 = key node /\
  rootName (search w q node st).2 = rootName node.
Proof.
  unfold search.
  destruct (etcdConfigs st !! name node) as [ec|]; [|done].
  destruct (Client ec) as [c|]; [|done].
  destruct (clientGet w c q) as [kvs|]; [|done].
  destruct (String.eqb q ""); cbn [refreshNodeIcon];
    destruct (_ && _); cbn;
    rewrite (buildSubtree_fields (resetSubtree node) kvs); done.
Qed.

Lemma search_node w q node st ec c kvs :
  etcdConfigs st !! name node = Some ec ->
  Client ec = Some c ->
  clientGet w c q = Some kvs ->
  (search w q node st).2 =
  setIcon (buildSubtree (resetSubtree node) kvs)
    (if String.eqb q "" then connectedIcon else searchIcon).
Proof.
  intros Hec Hc Hq. unfold search. rewrite Hec, Hc, Hq.
  destruct (String.eqb q ""); cbn [refreshNodeIcon]; by destruct (_ && _).
Qed.

(** [X13] After a [search] that got its listing the subtree holds the listing
    and nothing of what was there before: the children are those the loop
    builds from no children, and every node below carries a listed key. *)
Theorem search_shows_listing (w : World) (q : string) (node : Node)
    (st : State) (ec : EtcdConfig) (c : Handle) (kvs : list string) :
  etcdConfigs st !! name node = Some ec ->
  Client ec = Some c ->
  clientGet w c q = Some kvs ->
  children (search w q node st).2
    = children (buildSubtree (resetSubtree node) kvs) /\
  (forall n, n ∈ descendants (search w q node st).2 ->
             key n ∈ kvs /\ rootName n = name node) /\
  icon (search w q node st).2
    = (if String.eqb q "" then connectedIcon else searchIcon).
Proof.
  intros Hec Hc Hq. rewrite (search_node w q node st ec c kvs) by done.
  split; [done|]. split; [|done]. intros n Hn.
  rewrite descendants_unfold in Hn. cbn [children setIcon] in Hn.
  rewrite <- descendants_unfold in Hn.
  pose proof (builtShape_buildSubtree (resetSubtree node) kvs eq_refl) as Hs.
  rewrite Forall_forall in Hs. by destruct (Hs n Hn) as (? & ? & _).
Qed.

Lemma search_shows_listing_witness :
  let w := prefixStore 7 ["/a/b"; "/a/c"; "/d"] in
  let c1 := connect w root1 startState in
  etcdConfigs c1.1 !! name c1.2 = Some (withClient etcd1 (Some 7)) /\
  clientGet w 7 "/a" = Some ["/a/b"; "/a/c"] /\
  children (search w "/a" c1.2 c1.1).2
  = children (buildSubtree (resetSubtree c1.2) ["/a/b"; "/a/c"]).
Proof.
  cbn zeta.
  assert (Hec : etcdConfigs
                  (connect (prefixStore 7 ["/a/b"; "/a/c"; "/d"]) root1
                     startState).1
                !! name (connect (prefixStore 7 ["/a/b"; "/a/c"; "/d"]) root1
                           startState).2
                = Some (withClient etcd1 (Some 7))) by reflexivity.
  split; [exact Hec|]. split; [reflexivity|].
  apply (search_shows_listing _ "/a" _ _ _ 7 ["/a/b"; "/a/c"] Hec);
    reflexivity.
Defined.

(** [X14] A [search] whose query fails or matches nothing leaves the root
    without children; it stays connected, and only the failure shows an
    error box. *)
Theorem search_empty_subtree (w : World) (q : string) (node : Node)
    (st : State) (ec : EtcdConfig) (c : Handle) :
  etcdConfigs st !! name node = Some ec ->
  Client ec = Some c ->
  clientGet w c q = None \/ clientGet w c q = Some [] ->
  children (search w q node st).2 = [] /\
  connected (search w q node st).2 = connected node /\
  (clientGet w c q = None ->
     events (search w q node st).1
       = events st ++ [MsgBoxError "Search failed."]) /\
  (clientGet w c q = Some [] ->
     MsgBoxError "Search failed." ∉ drop (length (events st))
                                       (events (search w q node st).1)).
Proof.
  intros Hec Hc Hq. unfold search. rewrite Hec, Hc.
  destruct Hq as [-> | ->].
  - by split_and!.
  - destruct (String.eqb q ""); cbn; rewrite <- !app_assoc, drop_app_length;
      split_and!; try done; set_solver.
Qed.

Lemma search_empty_subtree_witness :
  let w := prefixStore 7 ["/a/b"] in
  let c1 := connect w root1 startState in
  children c1.2 <> [] /\
  clientGet w 7 "/zzz" = Some [] /\
  children (search w "/zzz" c1.2 c1.1).2 = [] /\
  connected (search w "/zzz" c1.2 c1.1).2 = true.
Proof.
  cbn zeta. split; [discriminate|]. split; [reflexivity|].
  destruct (search_empty_subtree (prefixStore 7 ["/a/b"]) "/zzz"
              (connect (prefixStore 7 ["/a/b"]) root1 startState).2
              (connect (prefixStore 7 ["/a/b"]) root1 startState).1
              (withClient etcd1 (Some 7)) 7 eq_refl eq_refl
              (or_intror eq_refl)) as (Hch & Hco & _).
  split; [exact Hch | exact Hco].
Defined.

(** [X15] A second [disconnect] changes neither the node nor the configurations
    nor the closed handles; it publishes its two notifications again. *)
Theorem disconnect_twice (node : Node) (st : State) :
  let d1 := disconnect node st in
  let d2 := disconnect d1.2 d1.1 in
  d2.2 = d1.2 /\
  etcdConfigs d2.1 = etcdConfigs d1.1 /\
  closed d2.1 = closed d1.1 /\
  events d2.1 = events d1.1 ++ [ItemChanged (name node);
                                ItemsReset (name node)].
Proof.
  cbn zeta. unfold disconnect.
  cbn [rootName name resetSubtree setChildren refreshNodeIcon setIcon
       setConnected fst snd].
  destruct (etcdConfigs st !! rootName node) as [ec|] eqn:Hec.
  - destruct (Client ec) as [c|] eqn:Hc.
    + cbn [etcdConfigs publish setClient closeClient].
      rewrite lookup_insert_eq. cbn [Client withClient].
      cbn. by rewrite <- !app_assoc.
    + cbn [etcdConfigs publish]. rewrite Hec, Hc. cbn.
      by rewrite <- !app_assoc.
  - cbn [etcdConfigs publish]. rewrite Hec. cbn. by rewrite <- !app_assoc.
Qed.

Lemma disconnect_lookup_other node st nm :
  rootName node <> nm ->
  etcdConfigs (disconnect node st).1 !! nm = etcdConfigs st !! nm.
Proof.
  intros Hne. unfold disconnect. cbn [rootName resetSubtree setChildren].
  destruct (etcdConfigs st !! rootName node) as [ec|]; [|done].
  destruct (Client ec) as [c|]; [|done].
  cbn. by rewrite lookup_insert_ne.
Qed.

(** [X16] The Reconnect action rebuilds from nothing: when its [connect] gets
    the listing, the children are those the loop builds from no children
    and every node below carries a listed key, whatever the root held
    before. *)
Theorem reconnect_replaces_subtree (w : World) (node : Node) (st : State)
    (ec : EtcdConfig) (c : Handle) (kvs : list string) :
  rootName node <> name node ->
  etcdConfigs st !! name node = Some ec ->
  clientNew w ec = Some c ->
  clientStatus w c (Endpoint ec) = true ->
  clientGet w c "/" = Some kvs ->
  children (reconnect w node st).2
    = children (buildSubtree (resetSubtree node) kvs) /\
  (forall n, n ∈ descendants (reconnect w node st).2 -> key n ∈ kvs).
Proof.
  intros Hne Hec Hc Hs Hq.
  assert (Hch : children (reconnect w node st).2
                = children (buildSubtree (resetSubtree node) kvs)).
  { unfold reconnect.
    destruct (disconnect node st) as [st1 n1] eqn:Hd.
    assert (Hn1 : n1 = (disconnect node st).2) by by rewrite Hd.
    assert (Hst1 : st1 = (disconnect node st).1) by by rewrite Hd.
    rewrite disconnect_node in Hn1.
    rewrite (connect_success_children w n1 st1 ec c kvs); try done.
    - apply buildSubtree_children_ext; by subst n1.
    - subst st1 n1. cbn [name setConnected setIcon resetSubtree setChildren].
      by rewrite disconnect_lookup_other. }
  split; [done|]. intros n Hn.
  rewrite descendants_unfold, Hch, <- descendants_unfold in Hn.
  pose proof (builtShape_buildSubtree (resetSubtree node) kvs eq_refl) as Hsh.
  rewrite Forall_forall in Hsh. by destruct (Hsh n Hn) as (? & _).
Qed.

Lemma reconnect_replaces_subtree_witness :
  let c1 := connect (expandFails 7 ["/old"]) root1 startState in
  name <$> children c1.2 = ["old"] /\
  children (reconnect (prefixStore 8 ["/new"]) c1.2 c1.1).2
  = children (buildSubtree (resetSubtree c1.2) ["/new"]).
Proof.
  cbn zeta. split; [reflexivity|].
  apply (reconnect_replaces_subtree (prefixStore 8 ["/new"]) _ _
           (withClient etcd1 (Some 7)) 8 ["/new"]);
    [discriminate | reflexivity..].
Defined.

(** [X17] The nodes built under a root are no connection roots to the handlers:
    when no listed key is empty, a click on such a node never calls
    [connect] and its context menu shows no action. *)
Theorem built_nodes_offer_nothing (d : Node) (K : list string) (n : Node)
    (hasParent : bool) :
  children d = [] ->
  "" ∉ K ->
  n ∈ descendants (buildSubtree d K) ->
  connectOffered hasParent n = false /\
  menuVisibility hasParent n
  = {| showConnect := false; showReconnect := false;
       showDisconnect := false; showSearch := false; showDelete := false |}.
Proof.
  intros Hd HK Hn.
  pose proof (builtShape_buildSubtree d K Hd) as Hsh.
  rewrite Forall_forall in Hsh. destruct (Hsh n Hn) as (Hk & _).
  assert (Hne : String.eqb (key n) "" = false).
  { apply String.eqb_neq. intros Heq. by rewrite Heq in Hk. }
  unfold connectOffered, menuVisibility. rewrite Hne.
  by rewrite !andb_false_r.
Qed.

Lemma built_nodes_offer_nothing_witness :
  let n := newNode "e" "/a/e" fileIcon "etcd1" in
  n ∈ descendants (buildSubtree root1 ["/a/b/c"; "/a/e"]) /\
  connectOffered true n = false /\ showDelete (menuVisibility true n) = false.
Proof.
  cbn zeta.
  assert (Hn : newNode "e" "/a/e" fileIcon "etcd1"
               ∈ descendants (buildSubtree root1 ["/a/b/c"; "/a/e"])).
  { vm_compute. repeat constructor. }
  assert (HK : "" ∉ ["/a/b/c"; "/a/e"]).
  { intros H. repeat (apply elem_of_cons in H as [H|H]; [discriminate|]).
    by apply elem_of_nil in H. }
  destruct (built_nodes_offer_nothing root1 _ _ true eq_refl HK Hn)
    as [Hoff Hmenu].
  split; [exact Hn|]. split; [exact Hoff|]. by rewrite Hmenu.
Defined.

(** [X18] [connect] and [disconnect] keep the node what it is to the handlers
    and to the lookups: its name, key and root name stay. *)
Theorem connect_disconnect_keep_identity (w : World) (node : Node)
    (st : State) :
  (name (connect w node st).2 = name node /\
   key (connect w node st).2 = key node /\
   rootName (connect w node st).2 = rootName node) /\
  (name (disconnect node st).2 = name node /\
   key (disconnect node st).2 = key node /\
   rootName (disconnect node st).2 = rootName node).
Proof.
  split; [|done]. unfold connect.
  destruct (etcdConfigs st !! name node) as [ec|]; [|done].
  destruct (clientNew w ec) as [c|]; [|done].
  destruct (clientStatus w c (Endpoint ec)); [|done]. cbn [negb].
  destruct (clientGet w c "/") as [kvs|]; [|done].
  cbn [refreshNodeIcon]. destruct (_ && _); cbn;
    rewrite (buildSubtree_fields node kvs); done.
Qed.

Lemma connect_key w node st : key (connect w node st).2 = key node.
Proof.
  unfold connect.
  destruct (etcdConfigs st !! name node) as [ec|]; [|done].
  destruct (clientNew w ec) as [c|]; [|done].
  destruct (clientStatus w c (Endpoint ec)); [|done]. cbn [negb].
  destruct (clientGet w c "/") as [kvs|]; [|done].
  cbn [refreshNodeIcon]. destruct (_ && _); cbn;
    rewrite (buildSubtree_fields node kvs); done.
Qed.

(** [X19] The context menu follows the session: on a connection root the menu
    after [disconnect] offers Connect and Delete; after [connect] it
    offers Reconnect, Disconnect, Search and Delete when the root came out
    connected, and Connect and Delete when it did not. *)
Theorem menu_follows_session (w : World) (node : Node) (st : State) :
  key node = "" ->
  let offerConnect :=
    {| showConnect := true; showReconnect := false; showDisconnect := false;
       showSearch := false; showDelete := true |} in
  let offerRest :=
    {| showConnect := false; showReconnect := true; showDisconnect := true;
       showSearch := true; showDelete := true |} in
  menuVisibility true (disconnect node st).2 = offerConnect /\
  menuVisibility true (connect w node st).2
  = (if connected (connect w node st).2 then offerRest else offerConnect).
Proof.
  intros Hk. cbn zeta. split.
  - unfold menuVisibility. cbn. by rewrite Hk.
  - unfold menuVisibility. rewrite connect_key, Hk. cbn.
    by destruct (connected (connect w node st).2).
Qed.

Lemma menu_follows_session_witness :
  key root1 = "" /\
  showConnect (menuVisibility true (disconnect root1 startState).2) = true /\
  showSearch (menuVisibility true
                (connect (prefixStore 7 ["/a"]) root1 startState).2) = true /\
  showConnect (menuVisibility true
                 (connect (queryFails 7) root1 startState).2) = true.
Proof.
  split; [reflexivity|].
  destruct (menu_follows_session (prefixStore 7 ["/a"]) root1 startState
              eq_refl) as [Hd Hc].
  destruct (menu_follows_session (queryFails 7) root1 startState eq_refl)
    as [_ Hf].
  split; [by rewrite Hd|]. split; [by rewrite Hc | by rewrite Hf].
Defined.

Lemma connect_stores_client w node st ec c :
  etcdConfigs st !! name node = Some ec ->
  clientNew w ec = Some c ->
  clientStatus w c (Endpoint ec) = true ->
  etcdConfigs (connect w node st).1 !! name node
  = Some (withClient ec (Some c)).
Proof.
  intros Hec Hc Hs. unfold connect. rewrite Hec, Hc, Hs. cbn [negb].
  destruct (clientGet w c "/") as [kvs|];
    [cbn [refreshNodeIcon]; destruct (_ && _)|];
    cbn; apply lookup_insert_eq.
Qed.

Lemma foldl_setTexts_texts k vs st :
  vs <> [] ->
  keyText (foldl (fun st v => setTexts k v st) st vs) = k /\
  valueText (foldl (fun st v => setTexts k v st) st vs)
  = default "" (last vs).
Proof.
  destruct vs as [|v vs _] using rev_ind; [done|]. intros _.
  by rewrite foldl_snoc, last_snoc.
Qed.

(** [X20] From [connect] to the value of a key: a left click on a node without
    children under a root that [connect] has listed asks the store for the
    node's key, through the handle [connect] stored, finds it by the
    node's root name, and shows the key and the last value returned. The
    node and the configurations are not touched. *)
Theorem leaf_click_shows_value (w : World) (hasParent : bool) (node : Node)
    (st : State) (ec : EtcdConfig) (c : Handle) (kvs : list string)
    (n : Node) (vs : list string) :
  etcdConfigs st !! name node = Some ec ->
  clientNew w ec = Some c ->
  clientStatus w c (Endpoint ec) = true ->
  clientGet w c "/" = Some kvs ->
  children node = [] ->
  "" ∉ kvs ->
  n ∈ descendants (connect w node st).2 ->
  children n = [] ->
  clientGetValue w c (key n) = Some vs ->
  vs <> [] ->
  let r := onLeftClick w hasParent n (connect w node st).1 in
  key n ∈ kvs /\
  r.2 = n /\
  keyText r.1 = key n /\
  valueText r.1 = default "" (last vs) /\
  etcdConfigs r.1 = etcdConfigs (connect w node st).1.
Proof.
  intros Hec Hc Hs Hq Hch Hempty Hn Hleaf Hv Hvs. cbn zeta.
  rewrite descendants_unfold in Hn.
  rewrite (connect_success_children w node st ec c kvs) in Hn by done.
  rewrite <- descendants_unfold in Hn.
  pose proof (builtShape_buildSubtree node kvs Hch) as Hsh.
  rewrite Forall_forall in Hsh. destruct (Hsh n Hn) as (Hk & Hrn & _).
  assert (Hne : String.eqb (key n) "" = false).
  { apply String.eqb_neq. intros Heq. by rewrite Heq in Hk. }
  split; [done|]. unfold onLeftClick, connectOffered, hasChildren.
  rewrite Hne, Hleaf, andb_false_r. cbn [negb andb].
  rewrite Hrn, (connect_stores_client w node st ec c) by done.
  cbn [Client withClient]. rewrite Hv. cbn [fst snd].
  destruct (foldl_setTexts_texts (key n) vs (connect w node st).1 Hvs)
    as [Hkt Hvt].
  destruct (foldl_setTexts (key n) vs (connect w node st).1) as [Hcfg _].
  by split_and!.
Qed.

Lemma leaf_click_shows_value_witness :
  let w := valueStore 7 ["/a/b"; "/c"] in
  let n := newNode "b" "/a/b" fileIcon "etcd1" in
  let r := onLeftClick w true n (connect w root1 startState).1 in
  n ∈ descendants (connect w root1 startState).2 /\
  keyText r.1 = "/a/b" /\ valueText r.1 = "value of /a/b".
Proof.
  cbn zeta.
  assert (Hn : newNode "b" "/a/b" fileIcon "etcd1"
               ∈ descendants
                   (connect (valueStore 7 ["/a/b"; "/c"]) root1 startState).2).
  { vm_compute. repeat constructor. }
  assert (Hempty : "" ∉ ["/a/b"; "/c"]).
  { intros H. repeat (apply elem_of_cons in H as [H|H]; [discriminate|]).
    by apply elem_of_nil in H. }
  destruct (leaf_click_shows_value (valueStore 7 ["/a/b"; "/c"]) true root1
              startState etcd1 7 ["/a/b"; "/c"] _ ["value of /a/b"]
              eq_refl eq_refl eq_refl eq_refl eq_refl Hempty Hn eq_refl
              eq_refl ltac:(discriminate))
    as (_ & _ & Hk & Hv & _).
  split; [exact Hn|]. split; [exact Hk | exact Hv].
Defined.

(** [X21] At start-up the model has the one root "All", and under it one
    placeholder for each configuration: named after the configuration,
    without key, root name and children, unconnected, and offered for
    connecting. *)
Theorem newNodeTreeModel_placeholders (cfgs : gmap string EtcdConfig) :
  RootCount (newNodeTreeModel cfgs) = 1 /\
  exists root,
    RootAt (newNodeTreeModel cfgs) 0 = Some root /\
    Text root = "All" /\
    ChildCount root = size cfgs /\
    forall c, c ∈ children root ->
      key c = "" /\ rootName c = "" /\ children c = [] /\
      connected c = false /\ icon c = unconnectedIcon /\
      connectOffered true c = true /\
      exists nm ec, cfgs !! nm = Some ec /\ Text c = Name ec.
Proof.
  split; [done|]. eexists. split; [done|]. split; [done|]. split.
  - unfold ChildCount. cbn. by rewrite !length_fmap, length_map_to_list.
  - cbn. intros c (ec & -> & Hec)%list_elem_of_fmap.
    apply list_elem_of_fmap in Hec as ([nm ec'] & -> & Hin).
    apply elem_of_map_to_list in Hin. split_and!; try done.
    by exists nm, ec'.
Qed.

(** * The add and delete handlers *)

Lemma disconnect_name node st : name (disconnect node st).2 = name node.
Proof. done. Qed.

Lemma disconnect_closed_no_config node st :
  etcdConfigs st !! rootName node = None ->
  closed (disconnect node st).1 = closed st.
Proof. unfold disconnect. cbn. by intros ->. Qed.




(** [X24] A press that found the name free but could not write the file
    has stored the struct of the dialog in the map all the same, and the
    next press of the same dialog goes through it. With the same name it
    is turned down as a name that exists, after the submit has put the
    user and password now entered into the stored configuration. With
    another free name the struct is stored under the new name too: both
    names then hold one configuration, which carries the new name. *)
Theorem saveConnection_second_press (fs fs' : Files) (f f2 : ConnectionForm)
    (dlg : Dialog) (st : State) :
  storedUnder dlg = [] ->
  etcdConfigs st !! formName f = None ->
  (saveConnection fs true f dlg st).1.2 = false ->
  let r1 := saveConnection fs true f dlg st in
  let r2 := saveConnection fs' true f2 r1.2 r1.1.1.1 in
  etcdConfigs r1.1.1.1 !! formName f
  = Some {| Name := formName f;
            Endpoint := "http://" +:+ formHost f +:+ ":" +:+ formPort f;
            Username := formUsername f; Password := formPassword f;
            Client := Client (bound dlg) |} /\
  (formName f2 = formName f ->
     r2.1.2 = false /\
     r2.1.1.2 = [MsgBoxWarning "Please enter a name that does not exist."] /\
     etcdConfigs r2.1.1.1 !! formName f
     = Some {| Name := formName f;
               Endpoint := "http://" +:+ formHost f +:+ ":" +:+ formPort f;
               Username := formUsername f2; Password := formPassword f2;
               Client := Client (bound dlg) |}) /\
  (formName f2 <> formName f ->
     etcdConfigs st !! formName f2 = None ->
     etcdConfigs r2.1.1.1 !! formName f
     = etcdConfigs r2.1.1.1 !! formName f2 /\
     etcdConfigs r2.1.1.1 !! formName f2
     = Some {| Name := formName f2;
               Endpoint := "http://" +:+ formHost f2 +:+ ":" +:+ formPort f2;
               Username := formUsername f2; Password := formPassword f2;
               Client := Client (bound dlg) |}).
Proof.
  intros Hfresh Hfree Hfail. cbn zeta.
  set (ec1 := {| Name := formName f;
                 Endpoint := "http://" +:+ formHost f +:+ ":" +:+ formPort f;
                 Username := formUsername f; Password := formPassword f;
                 Client := Client (bound dlg) |}).
  assert (Hr1 : etcdConfigs (saveConnection fs true f dlg st).1.1.1
                = <[formName f := ec1]> (etcdConfigs st) /\
                (saveConnection fs true f dlg st).2
                = {| bound := ec1; storedUnder := [formName f] |}).
  { revert Hfail. unfold saveConnection. rewrite Hfresh.
    cbn [negb syncStored foldr etcdConfigs setConfigs Name submitInto
         withEndpoint storedUnder].
    rewrite Hfree.
    destruct (Marshal fs _) as [content|]; [|done].
    by destruct (WriteFile fs content). }
  destruct Hr1 as [Hst1 Hdlg1].
  destruct (saveConnection fs true f dlg st) as [[[st1 ev1] acc1] dlg1].
  cbn [fst snd] in *. subst dlg1. clear Hfail.
  split_and!.
  - rewrite Hst1. apply lookup_insert_eq.
  - intros Hsame. unfold saveConnection.
    cbn [negb syncStored foldr etcdConfigs setConfigs Name submitInto
         withEndpoint storedUnder bound].
    rewrite Hsame, lookup_insert_eq. cbn. split_and!; try done.
    rewrite lookup_insert_eq. unfold submitInto, ec1. cbn. by rewrite Hsame.
  - intros Hother Hfree2. unfold saveConnection.
    cbn [negb syncStored foldr etcdConfigs setConfigs Name submitInto
         withEndpoint storedUnder bound].
    rewrite lookup_insert_ne by done. rewrite Hst1.
    rewrite lookup_insert_ne by done. rewrite Hfree2.
    assert (Hl : forall (ec : EtcdConfig) (m : gmap string EtcdConfig),
              <[formName f2 := ec]> (<[formName f := ec]> m) !! formName f
              = <[formName f2 := ec]> (<[formName f := ec]> m) !! formName f2
              /\ <[formName f2 := ec]> (<[formName f := ec]> m) !! formName f2
                 = Some ec).
    { intros ec m. rewrite lookup_insert_eq.
      by rewrite lookup_insert_ne, lookup_insert_eq. }
    destruct (Marshal fs' _) as [content|]; [|cbn; apply Hl].
    destruct (WriteFile fs' content); cbn; apply Hl.
Qed.

Lemma saveConnection_second_press_witness :
  let f := {| formName := "etcd2"; formHost := "127.0.0.1";
              formPort := "2379"; formUsername := "u"; formPassword := "p" |} in
  let f2 := {| formName := "etcd3"; formHost := "10.0.0.1";
               formPort := "2380"; formUsername := "v"; formPassword := "q" |} in
  let r1 := saveConnection readOnlyFiles true f newDialog startState in
  let r2 := saveConnection goodFiles true f2 r1.2 r1.1.1.1 in
  etcdConfigs startState !! "etcd2" = None /\
  r1.1.2 = false /\
  (Endpoint <$> etcdConfigs r1.1.1.1 !! "etcd2") = Some "http://127.0.0.1:2379" /\
  r2.1.2 = true /\
  (Name <$> etcdConfigs r2.1.1.1 !! "etcd2") = Some "etcd3".
Proof.
  cbn zeta. split; [reflexivity|]. split; [reflexivity|].
  destruct (saveConnection_second_press readOnlyFiles goodFiles
              {| formName := "etcd2"; formHost := "127.0.0.1";
                 formPort := "2379"; formUsername := "u";
                 formPassword := "p" |}
              {| formName := "etcd3"; formHost := "10.0.0.1";
                 formPort := "2380"; formUsername := "v";
                 formPassword := "q" |}
              newDialog startState eq_refl eq_refl eq_refl)
    as (Hst & _ & Hother).
  destruct (Hother ltac:(discriminate) eq_refl) as [Heq Hnew].
  split; [exact (f_equal (fmap Endpoint) Hst)|]. split; [reflexivity|].
  rewrite Hnew in Heq. exact (f_equal (fmap Name) Heq).
Defined.

(** * From the listing to the tree *)

Lemma hasPath_children_ext p d d' :
  children d = children d' -> hasPath p d = hasPath p d'.
Proof.
  intros Hd. destruct p as [|s p]; [done|].
  by rewrite !hasPath_cons, !child_lastNamed, Hd.
Qed.

Lemma descendants_children_ext d d' :
  children d = children d' -> descendants d = descendants d'.
Proof. intros Hd. by rewrite !descendants_unfold, Hd. Qed.

(** [X25] After a [connect] that got its listing every listed key can be
    reached: its segment path is a path of the tree, whatever the root
    held before. When the root had no children and no listed key's path is
    a prefix of another's, the Leaves are the listed keys, each once. *)
Theorem connect_reaches_every_key (w : World) (node : Node) (st : State)
    (ec : EtcdConfig) (c : Handle) (kvs : list string) :
  etcdConfigs st !! name node = Some ec ->
  clientNew w ec = Some c ->
  clientStatus w c (Endpoint ec) = true ->
  clientGet w c "/" = Some kvs ->
  (forall k, k ∈ kvs ->
     hasPath (segments k) (connect w node st).2 = true) /\
  (children node = [] -> prefixFree kvs = true ->
     leafKeys (connect w node st).2 ≡ₚ kvs).
Proof.
  intros Hec Hc Hs Hq.
  pose proof (connect_success_children w node st ec c kvs Hec Hc Hs Hq) as Hch.
  split.
  - intros k Hk. rewrite (hasPath_children_ext _ _ _ Hch).
    apply (hasPath_buildSubtree_prefix _ _ k); [done | apply isPrefix_refl].
  - intros Hd Hfree. unfold leafKeys, leaves.
    rewrite (descendants_children_ext _ _ Hch).
    by destruct (build_counts node kvs Hd Hfree) as [Hl _].
Qed.

Lemma connect_reaches_every_key_witness :
  let w := prefixStore 7 ["/a"; "/a/b"; "/c"] in
  etcdConfigs startState !! name root1 = Some etcd1 /\
  clientGet w 7 "/" = Some ["/a"; "/a/b"; "/c"] /\
  hasPath (segments "/a/b") (connect w root1 startState).2 = true.
Proof.
  cbn zeta.
  assert (Hec : etcdConfigs startState !! name root1 = Some etcd1)
    by reflexivity.
  split; [exact Hec|]. split; [reflexivity|].
  destruct (connect_reaches_every_key (prefixStore 7 ["/a"; "/a/b"; "/c"])
              root1 startState etcd1 7 ["/a"; "/a/b"; "/c"] Hec eq_refl
              eq_refl eq_refl) as [Hall _].
  apply Hall. apply list_elem_of_further, list_elem_of_here.
Defined.
